(** * CutHPM front end: reconstruction, statistics, cutting program, colours

  A shallow embedding of the JavaScript of the front end: the patch of
  the run handler ([frontend/app_patch.js]), the main script it patches
  (app.js) and the mode-switching script.  Embedded are the tree
  renderers [drawTreeNew] and [drawTree], [addBox], the statistics of
  [calculateStatisticsNew] and of the patched run handler,
  [buildCuttingTreeHTML], [getItemColor], [getItemColorHex] and
  [updateStatsTable].

  Numbers.  Lengths, positions, the kerf, counts and volumes are modelled
  as [Z]: on integer-valued doubles below 2^53 the JavaScript operations
  [+], [-] and [*] are exact.  Percentages, which need a division, are
  modelled as exact rationals [Q]; the doubles that lines 872-873 compute
  from the totals are in [Rounded], over the binary64 operations of
  [SpecFloat].

  Objects.  A JavaScript object used as a dictionary is a [gmap string];
  a property access [o[k]] first turns [k] into a string (see
  [Js.key]).  An absent property ([undefined]) is [None].  Item ids are
  taken not to be names of members of [Object.prototype].  Strings are
  strings of bytes, so [charCodeAt] is the byte: exact on ASCII ids. *)

From Stdlib Require Import ZArith QArith String Ascii List Lia.
From Stdlib Require Import DecimalString DecimalPos DecimalZ.
From Stdlib Require SpecFloat.
From stdpp Require Import gmap strings.
Import ListNotations.

Set Warnings "-register-all".
Local Open Scope Z_scope.

(** ** JavaScript values *)

Module Js.

(** Item identifiers reach the code as numbers (catalogue, JSON numbers)
    or as strings (JSON strings, object keys). *)
Inductive id : Type :=
| IdNum (n : Z)
| IdStr (s : string).

(** [String(n)] for an integer [n]: its decimal rendering. *)
Definition String_of_num (n : Z) : string :=
  NilZero.string_of_int (Z.to_int n).

(** [String(v)] *)
Definition String (v : id) : string :=
  match v with
  | IdNum n => String_of_num n
  | IdStr s => s
  end.

(** The property key of [o[v]]. *)
Definition key (v : id) : string := String v.

(** Truthiness of a number, of a string, and of an optional property. *)
Definition truthy_num (n : Z) : bool := negb (n =? 0).

Definition truthy_str (s : string) : bool :=
  match s with
  | EmptyString => false
  | _ => true
  end.

Definition truthy_id (v : id) : bool :=
  match v with
  | IdNum n => truthy_num n
  | IdStr s => truthy_str s
  end.

Definition truthy {A} (t : A -> bool) (o : option A) : bool :=
  match o with
  | Some a => t a
  | None => false
  end.

(** [x || d] on an optional number. *)
Definition num_or (o : option Z) (d : Z) : Z :=
  match o with
  | Some n => if truthy_num n then n else d
  | None => d
  end.

(** [x !== undefined] *)
Definition defined {A} (o : option A) : bool :=
  match o with
  | Some _ => true
  | None => false
  end.

(** [s === lit] on an optional string property. *)
Definition str_is (o : option string) (lit : string) : bool :=
  match o with
  | Some s => String.eqb s lit
  | None => false
  end.

(** ToInt32, and [h << k] on it. *)
Definition to_int32 (n : Z) : Z :=
  let m := n mod 2 ^ 32 in
  if m <? 2 ^ 31 then m else m - 2 ^ 32.

Definition shl32 (h : Z) (k : Z) : Z :=
  to_int32 (Z.shiftl (to_int32 h) k).

End Js.

(** ** Colours: [getItemColor] (app.js) and [getItemColorHex] (mode-switching script) *)

Module Color.

(** The colour an item gets is fixed by the three arguments handed to
    the HSL conversion ([THREE.Color.setHSL] in the 3D view, [hslToHex]
    in the table): [(hue + hueOffset) / 360], [saturation / 100] and
    [lightness / 100].  The record keeps the three numerators. *)
Record HSL : Type := mkHSL {
  hue_deg : Z;
  saturation : Z;
  lightness : Z
}.

Definition hues : list Z := [0; 30; 60; 120; 180; 210; 240; 270; 300; 330].

(** One turn of the loop
    [hash = idStr.charCodeAt(i) + ((hash << 5) - hash)]. *)
Definition hash_step (hash : Z) (c : ascii) : Z :=
  Z.of_nat (nat_of_ascii c) + (Js.shl32 hash 5 - hash).

Fixpoint hash_loop (s : string) (hash : Z) : Z :=
  match s with
  | EmptyString => hash
  | String.String c rest => hash_loop rest (hash_step hash c)
  end.

Definition of_hash (itemIndex : nat) (hash : Z) : HSL :=
  let hue := nth (itemIndex mod List.length hues) hues 0 in
  let hueOffset := Z.rem (Z.abs hash) 20 - 10 in
  let saturation := 75 + Z.rem (Z.abs hash) 20 in
  let lightness := 50 + Z.rem (Z.abs hash) 15 in
  mkHSL (hue + hueOffset) saturation lightness.

(** [getItemColor(itemId, itemIndex)]: the loop runs to [itemId.length],
    which is [undefined] for a number, so a number is hashed to 0. *)
Definition getItemColor (itemId : Js.id) (itemIndex : nat) : HSL :=
  let hash :=
    match itemId with
    | Js.IdStr s => hash_loop s 0
    | Js.IdNum _ => 0
    end in
  of_hash itemIndex hash.

(** [getItemColorHex(itemId, itemIndex)]: hashes [String(itemId)]. *)
Definition getItemColorHex (itemId : Js.id) (itemIndex : nat) : HSL :=
  let idStr := Js.String itemId in
  of_hash itemIndex (hash_loop idStr 0).

End Color.

(** ** Tree nodes *)

Module Tree.

(** A raw node as parsed from JSON, with the properties the renderers
    and the statistics read.  [box] is the triple [[L, W, H]]. *)
Inductive node : Type := Node {
  item_id : option Js.id;
  length : option Z;
  width : option Z;
  height : option Z;
  cut_dir : option string;
  cut_pos : option Z;
  left_pattern : option node;
  right_pattern : option node;
  kind : option string;
  box : option (Z * Z * Z);
  axis : option string;
  pos : option Z;
  children : option (list node)
}.

(** The node with no property at all. *)
Definition empty : node :=
  Node None None None None None None None None None None None None None.

(** The canonical tree of the data model.  The kerf is one value for the
    whole run in the code, so it is an argument of the renderers. *)
Inductive Axis : Type := AxH | AxV | AxD.

Definition letter (a : Axis) : string :=
  match a with
  | AxH => "H"
  | AxV => "V"
  | AxD => "D"
  end.

Inductive CutNode : Type :=
| Leaf (itemId : Js.id) (l w h : Z)
| Cut (ax : Axis) (position : Z) (left right : CutNode).

(** The current schema: [item_id], [length], [width], [height] on a
    leaf; [cut_dir], [cut_pos], [left_pattern], [right_pattern] on a
    cut. *)
Fixpoint current (t : CutNode) : node :=
  match t with
  | Leaf i l w h =>
      Node (Some i) (Some l) (Some w) (Some h)
           None None None None None None None None None
  | Cut a p lt rt =>
      Node None None None None
           (Some (letter a)) (Some p) (Some (current lt)) (Some (current rt))
           None None None None None
  end.

(** The legacy schema: [kind], [box], [axis], [pos], [children]. *)
Fixpoint legacy (t : CutNode) : node :=
  match t with
  | Leaf i l w h =>
      Node (Some i) None None None None None None None
           (Some "leaf") (Some (l, w, h)) None None None
  | Cut a p lt rt =>
      Node None None None None None None None None
           (Some "cut") None (Some (letter a)) (Some p)
           (Some [legacy lt; legacy rt])
  end.

End Tree.

(** ** The scene and [addBox] *)

Module Scene.

Definition Vec3 : Type := (Z * Z * Z)%type.

(** What [addBox] was called with; the mesh it builds is a box of that
    size centred at [(x + L/2, z + H/2, y + W/2)]. *)
Record Box : Type := mkBox {
  box_x : Z; box_y : Z; box_z : Z;
  box_L : Z; box_W : Z; box_H : Z;
  box_color : Color.HSL;
  box_opacity : Q;
  box_itemId : option Js.id;
  box_isSubBlock : bool
}.

Inductive Object3D : Type :=
| Mesh (b : Box)
| LineSegments (b : Box).

(** The globals of app.js that [addBox] touches, and the two colour
    dictionaries, which the renderers receive by reference and update in
    place. *)
Record World : Type := mkWorld {
  scene : option (list Object3D);
  itemMeshes : list Object3D;
  itemLabels : list (Z * Z * Z);
  currentOpacity : Q;
  itemColorMap : gmap string Color.HSL;
  itemIndexMap : gmap string nat
}.

Definition set_maps (cm : gmap string Color.HSL) (im : gmap string nat)
    (w : World) : World :=
  mkWorld (scene w) (itemMeshes w) (itemLabels w) (currentOpacity w) cm im.

(** [addBox(x, y, z, L, W, H, color, opacity, itemId, isSubBlock)];
    the result pairs the world with the mesh returned ([None] for
    [null]). *)
Definition addBox (x y z L W H : Z) (color : Color.HSL) (opacity : Q)
    (itemId : option Js.id) (isSubBlock : bool) (w : World)
    : World * option Box :=
  match scene w with
  | None => (w, None)
  | Some objs =>
      if (L <=? 0) || (W <=? 0) || (H <=? 0) then (w, None)
      else
        let b := mkBox x y z L W H color opacity
                   (if Js.truthy Js.truthy_id itemId then itemId else None)
                   isSubBlock in
        let mesh := Mesh b in
        let edgeLines := LineSegments b in
        (mkWorld (Some (objs ++ [mesh; edgeLines]))
                 (itemMeshes w ++ [mesh; edgeLines])
                 (if isSubBlock then itemLabels w ++ [(L, W, H)]
                  else itemLabels w)
                 (currentOpacity w) (itemColorMap w) (itemIndexMap w),
         Some b)
  end.

(** The placements on display: the meshes of [itemMeshes], in the order
    they were added. *)
Fixpoint placements (objs : list Object3D) : list Box :=
  match objs with
  | [] => []
  | Mesh b :: rest => b :: placements rest
  | LineSegments _ :: rest => placements rest
  end.

End Scene.

(** ** Reconstruction: [drawTreeNew] and [drawTree] (app.js) *)

Module Draw.
Import Tree Scene.

(** The colour look-up shared by the leaf branches:
    [if (itemColorMap[id]) color = itemColorMap[id];
     else { itemIndexMap[id] = Object.keys(itemColorMap).length;
            color = getItemColor(id, itemIndexMap[id]);
            itemColorMap[id] = color; }] *)
Definition colorFor (id : Js.id) (w : World) : Color.HSL * World :=
  match itemColorMap w !! Js.key id with
  | Some color => (color, w)
  | None =>
      let index := size (itemColorMap w) in
      let im := <[Js.key id := index]> (itemIndexMap w) in
      let color := Color.getItemColor id index in
      (color, set_maps (<[Js.key id := color]> (itemColorMap w)) im w)
  end.

(** The leaf branch of both renderers, for a truthy [item_id]. *)
Definition drawLeaf (id : Js.id) (origin : Vec3) (L W H : Z) (w : World)
    : World :=
  let '(color, w1) := colorFor id w in
  let '(x, y, z) := origin in
  fst (addBox x y z L W H color (currentOpacity w1) (Some id) false w1).

(** [newOrigin] of [drawTreeNew]: V moves x, D moves y, H moves z; any
    other [cut_dir] leaves the copy of [origin] as it is. *)
Definition newOrigin (cutDir : string) (origin : Vec3) (pos kerf : Z)
    : Vec3 :=
  let '(x, y, z) := origin in
  if String.eqb cutDir "V" then (x + pos + kerf, y, z)
  else if String.eqb cutDir "D" then (x, y + pos + kerf, z)
  else if String.eqb cutDir "H" then (x, y, z + pos + kerf)
  else (x, y, z).

(** [drawTreeNew(tree, blockDims, kerf, origin, itemColorMap,
    itemIndexMap)] on a non-null [tree]; the test [if (!tree) return] is
    the [None] case at each call. *)
Fixpoint drawTreeNew (tree : node) (blockDims : Vec3) (kerf : Z)
    (origin : Vec3) (w : World) {struct tree} : World :=
  let '(bL, bW, bH) := blockDims in
  let L := Js.num_or (length tree) bL in
  let W := Js.num_or (width tree) bW in
  let H := Js.num_or (height tree) bH in
  if Js.truthy Js.truthy_id (item_id tree)
     && negb (Js.truthy Js.truthy_str (cut_dir tree))
  then
    match item_id tree with
    | Some id => drawLeaf id origin L W H w
    | None => w
    end
  else
    if Js.truthy Js.truthy_str (cut_dir tree)
       && (Js.defined (left_pattern tree) || Js.defined (right_pattern tree))
    then
      let cutDir := default EmptyString (cut_dir tree) in
      let pos := Js.num_or (cut_pos tree) 0 in
      let w1 :=
        match left_pattern tree with
        | Some lt => drawTreeNew lt blockDims kerf origin w
        | None => w
        end in
      match right_pattern tree with
      | Some rt =>
          drawTreeNew rt blockDims kerf (newOrigin cutDir origin pos kerf) w1
      | None => w1
      end
    else w.

(** [drawTree]: a node with [length] or [cut_dir] goes to
    [drawTreeNew]; otherwise the legacy properties are read. *)
Fixpoint drawTree (tree : node) (blockDims : Vec3) (kerf : Z)
    (origin : Vec3) (w : World) {struct tree} : World :=
  if Js.defined (length tree) || Js.defined (cut_dir tree)
  then drawTreeNew tree blockDims kerf origin w
  else
    let '(L, W, H) := default blockDims (box tree) in
    if Js.str_is (kind tree) "leaf" && Js.truthy Js.truthy_id (item_id tree)
    then
      match item_id tree with
      | Some id => drawLeaf id origin L W H w
      | None => w
      end
    else
      match children tree with
      | Some (c0 :: c1 :: _) =>
          if Js.str_is (kind tree) "cut" then
            let pos := Js.num_or (Tree.pos tree) 0 in
            let '(x, y, z) := origin in
            if Js.str_is (axis tree) "H" then
              drawTree c1 blockDims kerf (x + pos + kerf, y, z)
                (drawTree c0 blockDims kerf origin w)
            else if Js.str_is (axis tree) "V" then
              drawTree c1 blockDims kerf (x, y + pos + kerf, z)
                (drawTree c0 blockDims kerf origin w)
            else if Js.str_is (axis tree) "D" then
              drawTree c1 blockDims kerf (x, y, z + pos + kerf)
                (drawTree c0 blockDims kerf origin w)
            else w
          else w
      | _ => w
      end.

(** The boxes a run put on display. *)
Definition placed (w : World) : list Box := placements (itemMeshes w).

End Draw.

(** ** Statistics from the tree: [calculateStatisticsNew] (app.js) *)

Module Stats.
Import Tree.

(** The item catalogue typed into the page: [id,l,w,h,qty] per line. *)
Record Item : Type := mkItem {
  id : Z;
  l : Z;
  w : Z;
  h : Z;
  qty : Z
}.

Record ItemStat : Type := mkItemStat {
  stat_id : Js.id;
  count : Z;
  volume : Z
}.

(** The two properties of [stats] that [countItems] updates. *)
Record Acc : Type := mkAcc {
  acc_items : gmap string ItemStat;
  acc_totalFilled : Z
}.

(** [stats]; the two percentages are kept as exact rationals: the
    producer's figure in the run handler, the exact quotient in
    [calculateStatisticsNew], whose doubles are in [Rounded]. *)
Record Stats : Type := mkStats {
  items : gmap string ItemStat;
  totalFilled : Z;
  totalWaste : Z;
  totalVolume : Z;
  fillPercent : Q;
  wastePercent : Q
}.

(** The body both leaf tests share:
    [if (!stats.items[id]) stats.items[id] = {id, count: 0, volume: 0};
     stats.items[id].count++; stats.items[id].volume += volume;
     stats.totalFilled += volume]. *)
Definition record (itemId : Js.id) (vol : Z) (stats : Acc) : Acc :=
  let k := Js.key itemId in
  let items0 :=
    match acc_items stats !! k with
    | Some _ => acc_items stats
    | None => <[k := mkItemStat itemId 0 0]> (acc_items stats)
    end in
  let items1 :=
    alter (fun e => mkItemStat (stat_id e) (count e + 1) (volume e + vol))
          k items0 in
  mkAcc items1 (acc_totalFilled stats + vol).

(** [if (node.item_id && !node.cut_dir) { ... }] *)
Definition countNew (node : Tree.node) (stats : Acc) : Acc :=
  match item_id node with
  | Some itemId =>
      if Js.truthy_id itemId && negb (Js.truthy Js.truthy_str (cut_dir node))
      then
        let vol := Js.num_or (length node) 0 * Js.num_or (width node) 0
                   * Js.num_or (height node) 0 in
        record itemId vol stats
      else stats
  | None => stats
  end.

(** [if (node.kind === 'leaf' && node.item_id) { ... }] *)
Definition countLegacy (node : Tree.node) (stats : Acc) : Acc :=
  match item_id node with
  | Some itemId =>
      if Js.str_is (kind node) "leaf" && Js.truthy_id itemId
      then
        let '(L, W, H) := default (0, 0, 0) (box node) in
        record itemId (L * W * H) stats
      else stats
  | None => stats
  end.

(** [countItems(node)]: the two leaf tests, one after the other, then
    the descent into [left_pattern], [right_pattern] and [children]. *)
Fixpoint countItems (node : Tree.node) (stats : Acc) {struct node} : Acc :=
  let stats1 := countNew node stats in
  let stats2 := countLegacy node stats1 in
  let stats3 :=
    match left_pattern node with
    | Some lt => countItems lt stats2
    | None => stats2
    end in
  let stats4 :=
    match right_pattern node with
    | Some rt => countItems rt stats3
    | None => stats3
    end in
  match children node with
  | Some cs => fold_left (fun st c => countItems c st) cs stats4
  | None => stats4
  end.

(** [x / y * 100] as an exact quotient.  The code computes it in binary64
    and rounds after the division and after the multiplication; the
    rounded value is [Rounded.percent]. *)
Definition percent (x y : Z) : Q := (inject_Z x / inject_Z y * 100)%Q.

Definition calculateStatisticsNew (tree : option Tree.node)
    (catalogue : list Item) (blockDims : Z * Z * Z) : Stats :=
  let '(bL, bW, bH) := blockDims in
  let totalVolume := bL * bW * bH in
  let stats :=
    match tree with
    | Some t => countItems t (mkAcc ∅ 0)
    | None => mkAcc ∅ 0
    end in
  let totalWaste := totalVolume - acc_totalFilled stats in
  mkStats (acc_items stats) (acc_totalFilled stats) totalWaste totalVolume
          (if 0 <? totalVolume
           then percent (acc_totalFilled stats) totalVolume else 0%Q)
          (if 0 <? totalVolume
           then percent totalWaste totalVolume else 0%Q).

(** ** Statistics from the response: the patched run handler
    (app_patch.js) *)

Record Placed : Type := mkPlaced {
  placed_item_id : Js.id;
  position : Z * Z * Z;
  dimensions : Z * Z * Z
}.

Record Result : Type := mkResult {
  items_placed : option (list Placed);
  filled_volume : option Z;
  utilization : option Q;
  item_counts : option (gmap string Z)
}.

(** [x || d] on an optional percentage. *)
Definition q_or (o : option Q) (d : Q) : Q :=
  match o with
  | Some q => if Qeq_bool q 0 then d else q
  | None => d
  end.

Section Handler.

(** The conversion of a string to a number that [==] applies when it
    compares a number with a string; [None] when the string is not
    the text of an integer. *)
Variable StringToNumber : string -> option Z.

(** [n == s] for a number [n] and a string [s]. *)
Definition loose_eq (n : Z) (s : string) : bool :=
  match StringToNumber s with
  | Some m => n =? m
  | None => false
  end.

(** The body of [Object.keys(result.item_counts).forEach(itemId => ...)]
    for the key [itemId] and its value [result.item_counts[itemId]]. *)
Definition addCount (catalogue : list Item)
    (acc : gmap string ItemStat) (entry : string * Z)
    : gmap string ItemStat :=
  let '(itemId, n) := entry in
  let itemData := List.find (fun it => loose_eq (id it) itemId) catalogue in
  let vol :=
    match itemData with
    | Some it => l it * w it * h it
    | None => 0
    end in
  <[itemId := mkItemStat (Js.IdStr itemId) n (vol * n)]> acc.

(** The statistics block of the handler. *)
Definition handlerStats (blockL blockW blockH : Z)
    (catalogue : list Item) (result : Result) : Stats :=
  let totalVolume := blockL * blockW * blockH in
  let totalFilled := Js.num_or (filled_volume result) 0 in
  let items :=
    match item_counts result with
    | Some counts => fold_left (addCount catalogue) (map_to_list counts) ∅
    | None => ∅
    end in
  mkStats items totalFilled (totalVolume - totalFilled) totalVolume
          (q_or (utilization result) 0)
          (100 - q_or (utilization result) 0)%Q.

End Handler.

(** [stats.items[item.id]] with a number [item.id], as
    [updateStatsTable] reads it. *)
Definition lookup_num (m : gmap string ItemStat) (n : Z) : option ItemStat :=
  m !! Js.key (Js.IdNum n).

End Stats.

(** ** The two views of a result: the 3D loop of the patched run handler
  and [updateStatsTable] (mode-switching script) *)

Module Views.
Import Scene Stats.

(** [window.currentOpacity]: the copy of the module variable
    [currentOpacity] that [init3D] exports while it still holds its
    initial 1.0; the slider assigns the module variable only, so this
    copy never changes.  (Before [init3D] it is [undefined], and
    [|| 1.0] gives the same 1.0.) *)
Definition window_currentOpacity : option Q := Some 1%Q.

(** The body of [result.items_placed.forEach(item => ...)]:
    [if (!itemColorMap[itemId]) {
       itemIndexMap[itemId] = Object.keys(itemColorMap).length;
       itemColorMap[itemId] = getItemColor(String(itemId), itemIndexMap[itemId]); }
     addBox(pos.x, pos.y, pos.z, dims.l, dims.w, dims.h, itemColorMap[itemId],
            window.currentOpacity || 1.0, String(itemId), false)]. *)
Definition renderPlaced (w : World) (item : Placed) : World :=
  let itemId := placed_item_id item in
  let k := Js.key itemId in
  let '(color, w1) :=
    match itemColorMap w !! k with
    | Some color => (color, w)
    | None =>
        let index := size (itemColorMap w) in
        let color := Color.getItemColor (Js.IdStr (Js.String itemId)) index in
        (color,
         set_maps (<[k := color]> (itemColorMap w))
                  (<[k := index]> (itemIndexMap w)) w)
    end in
  let '(x, y, z) := position item in
  let '(dl, dw, dh) := dimensions item in
  fst (addBox x y z dl dw dh color
         (q_or window_currentOpacity 1)
         (Some (Js.IdStr (Js.String itemId))) false w1).

(** [if (result.items_placed && result.items_placed.length > 0) ...],
    with the colour dictionaries created empty just before. *)
Definition renderItems (w : World) (result : Result) : World :=
  match items_placed result with
  | Some (item :: rest) =>
      fold_left renderPlaced (item :: rest) (set_maps ∅ ∅ w)
  | _ => set_maps ∅ ∅ w
  end.

(** The colour of an item in the 3D view: the entry of [itemColorMap]. *)
Definition color3D (w : World) (itemId : Js.id) : option Color.HSL :=
  itemColorMap w !! Js.key itemId.

(** A row of the table; the percentages are [None] when the block
    volume is 0 and the quotient is not a finite number. *)
Record Row : Type := mkRow {
  row_color : Color.HSL;
  row_id : Z;
  row_dims : Z * Z * Z;
  row_itemPercent : option Q;
  row_count : Z;
  row_totalItemPercent : option Q
}.

Definition ratio100 (x y : Z) : option Q :=
  if y =? 0 then None else Some (percent x y).

(** [updateStatsTable(items, stats, blockL, blockW, blockH)]: one row
    per catalogue item, coloured by [getItemColorHex(item.id, index)]. *)
Definition updateStatsTable (catalogue : list Item) (stats : Stats.Stats)
    (blockL blockW blockH : Z) : list Row :=
  let totalVolume := blockL * blockW * blockH in
  imap (fun index item =>
          let itemStats :=
            default (mkItemStat (Js.IdNum (id item)) 0 0)
                    (lookup_num (items stats) (id item)) in
          let vol := l item * w item * h item in
          mkRow (Color.getItemColorHex (Js.IdNum (id item)) index)
                (id item) (l item, w item, h item)
                (ratio100 vol totalVolume)
                (count itemStats)
                (ratio100 (vol * count itemStats) totalVolume))
       catalogue.

(** The colour of an item in the table: that of its first row. *)
Definition colorTable (rows : list Row) (n : Z) : option Color.HSL :=
  row_color <$> List.find (fun r => row_id r =? n) rows.

End Views.

(** ** The cutting program: [buildCuttingTreeHTML] (app.js) *)

Module Program.

(** A step with its [node] object and a depth that can be repeated: the
    steps on which the loop of [buildCuttingTreeHTML] returns.  Steps as
    they arrive, with [node] perhaps absent and any integer for a depth,
    are in [Formatter]. *)
Record StepNode : Type := mkStepNode {
  depth : option nat;
  volume : option Z
}.

Record Step : Type := mkStep {
  seq : Z;
  operation : string;
  description : string;
  node : StepNode
}.

Record Conflict : Type := mkConflict {
  conflict_description : string
}.

Record CuttingTree : Type := mkCuttingTree {
  sequence : option (list Step);
  total_nodes : option Z;
  total_cuts : option Z;
  total_items : option Z;
  conflicts : option (list Conflict)
}.

Inductive Icon : Type :=
| IconNone | IconPackage | IconScissors | IconTriangle | IconCheck.

(** The markup, one constructor per group of [html += ...] statements;
    the constant text and styling of a group is left out, the values
    interpolated into it are the arguments. *)
Inductive Html : Type :=
| Open
| Header (nodes cuts parts : Z)
| ConflictsOpen (n : nat)
| ConflictLine (text : string)
| ConflictsClose
| NoConflicts
| TableHead
| TableRow (bgColor operationColor : string) (icon : Icon)
           (seq_cell operation_cell description_cell : string)
           (volume_cell : option string)
| TableEnd
| Close.

(** ['  '.repeat(n)] *)
Fixpoint indent_of (n : nat) : string :=
  match n with
  | O => EmptyString
  | S m => String.append "  " (indent_of m)
  end.

(** The body of [cuttingTree.sequence.forEach((step, index) => ...)]. *)
Definition renderStep (index : nat) (step : Step) : Html :=
  let bgColor := if Nat.even index then "#ffffff" else "#f9f9f9" in
  let '(operationColor, operationIcon) :=
    if String.eqb (operation step) "START" then ("#2196F3", IconPackage)
    else if String.eqb (operation step) "CUT" then ("#ff5722", IconScissors)
    else if String.eqb (operation step) "SUB-BLOCK" then ("#9c27b0", IconTriangle)
    else if String.eqb (operation step) "ITEM" then ("#4caf50", IconCheck)
    else ("#000", IconNone) in
  let indent := indent_of (default O (depth (node step))) in
  let vol :=
    match volume (node step) with
    | Some v => if Js.truthy_num v then Some (Js.String_of_num v) else None
    | None => None
    end in
  TableRow bgColor operationColor operationIcon
           (Js.String_of_num (seq step)) (operation step)
           (String.append indent (description step)) vol.

(** [buildCuttingTreeHTML(cuttingTree)]; the empty list is the empty
    string returned when there is no tree or no [sequence]. *)
Definition buildCuttingTreeHTML (cuttingTree : option CuttingTree)
    : list Html :=
  match cuttingTree with
  | None => []
  | Some ct =>
      match sequence ct with
      | None => []
      | Some steps =>
          [Open;
           Header (Js.num_or (total_nodes ct) 0) (Js.num_or (total_cuts ct) 0)
                  (Js.num_or (total_items ct) 0)]
          ++ match conflicts ct with
             | Some (c :: cs) =>
                 [ConflictsOpen (List.length (c :: cs))]
                 ++ List.map (fun conflict =>
                                ConflictLine (conflict_description conflict))
                             (c :: cs)
                 ++ [ConflictsClose]
             | _ => [NoConflicts]
             end
          ++ [TableHead]
          ++ imap renderStep steps
          ++ [TableEnd; Close]
      end
  end.

(** What the report shows, read back from the markup. *)
Fixpoint rows (html : list Html) : list (string * string * string) :=
  match html with
  | [] => []
  | TableRow _ _ _ s o d _ :: rest => (s, o, d) :: rows rest
  | _ :: rest => rows rest
  end.

Fixpoint conflict_lines (html : list Html) : list string :=
  match html with
  | [] => []
  | ConflictLine text :: rest => text :: conflict_lines rest
  | _ :: rest => conflict_lines rest
  end.

Fixpoint says_no_conflicts (html : list Html) : bool :=
  match html with
  | [] => false
  | NoConflicts :: _ => true
  | _ :: rest => says_no_conflicts rest
  end.

End Program.

(** ** Vocabulary of the properties *)

Module Spec.
Import Tree Scene Draw.

(** A world right after [clearScene]: a scene, nothing on display. *)
Definition cleared : World := mkWorld (Some []) [] [] 1 ∅ ∅.

Definition initialised (w : World) : Prop := scene w <> None.

Definition volume_of_box (b : Box) : Z := box_L b * box_W b * box_H b.

Definition sum_volumes (bs : list Box) : Z :=
  fold_right (fun b acc => volume_of_box b + acc) 0 bs.

Definition origin_of (b : Box) : Vec3 := (box_x b, box_y b, box_z b).

Definition size_of (b : Box) : Vec3 := (box_L b, box_W b, box_H b).

(** The axis-to-dimension mapping of the data model: V is x, D is y,
    H is z. *)
Definition shift (a : Axis) (o : Vec3) (d : Z) : Vec3 :=
  let '(x, y, z) := o in
  match a with
  | AxV => (x + d, y, z)
  | AxD => (x, y + d, z)
  | AxH => (x, y, z + d)
  end.

(** The dimension a legacy axis letter moves, as a current letter. *)
Definition legacy_axis (a : Axis) : Axis :=
  match a with
  | AxH => AxV
  | AxV => AxD
  | AxD => AxH
  end.

Fixpoint relabel (t : CutNode) : CutNode :=
  match t with
  | Leaf i l w h => Leaf i l w h
  | Cut a p lt rt => Cut (legacy_axis a) p (relabel lt) (relabel rt)
  end.

(** Moving a box, and everything on display, by a vector. *)
Definition move (d : Vec3) (b : Box) : Box :=
  let '(dx, dy, dz) := d in
  mkBox (box_x b + dx) (box_y b + dy) (box_z b + dz)
        (box_L b) (box_W b) (box_H b)
        (box_color b) (box_opacity b) (box_itemId b) (box_isSubBlock b).

Definition move_object (d : Vec3) (obj : Object3D) : Object3D :=
  match obj with
  | Mesh b => Mesh (move d b)
  | LineSegments b => LineSegments (move d b)
  end.

Definition plus (o d : Vec3) : Vec3 :=
  let '(x, y, z) := o in
  let '(dx, dy, dz) := d in
  (x + dx, y + dy, z + dz).

(** What [drawTreeNew] asks of [addBox] for a current-schema leaf: a
    side that is 0 is replaced by the side of the block. *)
Definition sizeNew (dims : Vec3) (l wd h : Z) : Vec3 :=
  let '(bL, bW, bH) := dims in
  (Js.num_or (Some l) bL, Js.num_or (Some wd) bW, Js.num_or (Some h) bH).

(** Two worlds that differ at most in what is on display. *)
Definition agree (w w' : World) : Prop :=
  itemColorMap w = itemColorMap w'
  /\ itemIndexMap w = itemIndexMap w'
  /\ currentOpacity w = currentOpacity w'
  /\ Js.defined (scene w) = Js.defined (scene w').

(** Leaves of a canonical tree. *)
Fixpoint leaves (t : CutNode) : list (Js.id * Z * Z * Z) :=
  match t with
  | Leaf i l w h => [(i, l, w, h)]
  | Cut _ _ lt rt => leaves lt ++ leaves rt
  end.

Definition leaf_volume (lf : Js.id * Z * Z * Z) : Z :=
  let '(_, l, w, h) := lf in l * w * h.

Definition leaf_id (lf : Js.id * Z * Z * Z) : Js.id :=
  let '(i, _, _, _) := lf in i.

Definition leaf_positive (lf : Js.id * Z * Z * Z) : Prop :=
  let '(_, l, w, h) := lf in 0 < l /\ 0 < w /\ 0 < h.

Definition leaf_nonzero (lf : Js.id * Z * Z * Z) : Prop :=
  let '(_, l, w, h) := lf in l <> 0 /\ w <> 0 /\ h <> 0.

(** The leaves the code treats as leaves: those with a truthy id. *)
Definition counted (t : CutNode) : list (Js.id * Z * Z * Z) :=
  List.filter (fun lf => Js.truthy_id (leaf_id lf)) (leaves t).

(** Those stored under the key [k]. *)
Definition counted_at (k : string) (t : CutNode) : list (Js.id * Z * Z * Z) :=
  List.filter (fun lf => String.eqb (Js.key (leaf_id lf)) k) (counted t).

Definition sum_leaf_volumes (lfs : list (Js.id * Z * Z * Z)) : Z :=
  fold_right (fun lf acc => leaf_volume lf + acc) 0 lfs.

(** Count and volume on record for a key; 0 when there is no entry. *)
Definition count_at (k : string) (m : gmap string Stats.ItemStat) : Z :=
  match m !! k with
  | Some e => Stats.count e
  | None => 0
  end.

Definition volume_at (k : string) (m : gmap string Stats.ItemStat) : Z :=
  match m !! k with
  | Some e => Stats.volume e
  | None => 0
  end.

Definition bump (b : bool) (n : Z) : Z := if b then n else 0.

(** Reading a decimal integer back from its text; this is what the
    conversion of a string to a number does on the text of an
    integer. *)
Definition decimal (s : string) : option Z :=
  option_map Z.of_int (NilZero.int_of_string s).

(** What a row of the cutting program shows of its step: the number,
    the operation, the indented description. *)
Definition shown (step : Program.Step) : string * string * string :=
  (Js.String_of_num (Program.seq step), Program.operation step,
   String.append (Program.indent_of (default O (Program.depth (Program.node step))))
                 (Program.description step)).

End Spec.

(** ** Sample inputs *)

Module Samples.
Import Tree Scene Stats.

Definition block : Vec3 := (100, 100, 100).

(** A cut along V at 10 between two 5 x 5 x 5 items. *)
Definition two_items : CutNode :=
  Cut AxV 10 (Leaf (Js.IdStr "A") 5 5 5) (Leaf (Js.IdStr "B") 5 5 5).

(** [{item_id: 1, length: 0, width: 5, height: 5}] *)
Definition flat_leaf : node := current (Leaf (Js.IdNum 1) 0 5 5).

(** [{item_id: 1, length: -2, width: 3, height: 4}] *)
Definition negative_leaf : CutNode := Leaf (Js.IdNum 1) (-2) 3 4.

(** [{item_id: 0, length: 1, width: 2, height: 3}] *)
Definition zero_id_leaf : CutNode := Leaf (Js.IdNum 0) 1 2 3.

(** [{kind: 'leaf', item_id: 'A', box: [1, 2, 3]}] *)
Definition legacy_leaf : node := legacy (Leaf (Js.IdStr "A") 1 2 3).

(** The catalogue [1,100,50,30,2] and [2,40,40,40,1]. *)
Definition catalogue : list Item :=
  [mkItem 1 100 50 30 2; mkItem 2 40 40 40 1].

(** A response for a 40 x 40 x 40 block, which holds item 2 only. *)
Definition only_second : Result :=
  mkResult (Some [mkPlaced (Js.IdNum 2) (0, 0, 0) (40, 40, 40)])
           (Some 64000) (Some 100%Q) (Some {[ "2" := 1 ]}).


(** The end-to-end example: two of item 1 in a 200 x 100 x 60 block. *)
Definition two_placed : Result :=
  mkResult (Some [mkPlaced (Js.IdNum 1) (0, 0, 0) (100, 50, 30);
                  mkPlaced (Js.IdNum 1) (102, 0, 0) (100, 50, 30)])
           (Some 300000) (Some 25%Q) (Some {[ "1" := 2 ]}).

Definition program : Program.CuttingTree :=
  Program.mkCuttingTree
    (Some [Program.mkStep 1 "START" "block" (Program.mkStepNode (Some 0%nat) (Some 1200000));
           Program.mkStep 2 "CUT" "V at 100" (Program.mkStepNode (Some 1%nat) None);
           Program.mkStep 3 "ITEM" "item 1" (Program.mkStepNode (Some 2%nat) (Some 150000))])
    (Some 3) (Some 1) (Some 1) None.

End Samples.


(** ** The unpatched run handler (app.js) *)

Module App.
Import Scene Stats.

(** The body of [result.items_placed.forEach(item => ...)] of app.js:
    [if (!itemColorMap[itemId]) {
       itemIndexMap[itemId] = Object.keys(itemColorMap).length;
       itemColorMap[itemId] = getItemColor(itemId, itemIndexMap[itemId]); }
     addBox(pos.x, pos.y, pos.z, dims.l, dims.w, dims.h,
            itemColorMap[itemId], currentOpacity, itemId)]. *)
Definition renderPlaced (w : World) (item : Placed) : World :=
  let itemId := placed_item_id item in
  let k := Js.key itemId in
  let '(color, w1) :=
    match itemColorMap w !! k with
    | Some color => (color, w)
    | None =>
        let index := size (itemColorMap w) in
        let color := Color.getItemColor itemId index in
        (color,
         set_maps (<[k := color]> (itemColorMap w))
                  (<[k := index]> (itemIndexMap w)) w)
    end in
  let '(x, y, z) := position item in
  let '(dl, dw, dh) := dimensions item in
  fst (addBox x y z dl dw dh color (currentOpacity w1) (Some itemId) false w1).

(** The drawing step of the handler, with the colour dictionaries created
    empty just before: the placements of the response when there are
    some, else the tree [result.tree] when there is one.  [result.tree]
    and [result.waste], which the patched handler does not read, are
    passed beside the record. *)
Definition render (w : World) (result : Result) (tree : option Tree.node)
    (blockDims : Vec3) (kerf : Z) : World :=
  match items_placed result with
  | Some (item :: rest) =>
      fold_left renderPlaced (item :: rest) (set_maps ∅ ∅ w)
  | _ =>
      match tree with
      | Some t => Draw.drawTreeNew t blockDims kerf (0, 0, 0) (set_maps ∅ ∅ w)
      | None => set_maps ∅ ∅ w
      end
  end.

(** The body of [Object.keys(result.item_counts).forEach(itemId => ...)]
    of app.js: the count, and 0 for the volume. *)
Definition addCount (acc : gmap string ItemStat) (entry : string * Z)
    : gmap string ItemStat :=
  let '(itemId, n) := entry in
  <[itemId := mkItemStat (Js.IdStr itemId) n 0]> acc.

(** The statistics step of the handler. *)
Definition stats (blockL blockW blockH : Z) (catalogue : list Item)
    (result : Result) (waste : option Z) (tree : option Tree.node) : Stats :=
  match items_placed result with
  | Some (_ :: _) =>
      let totalVolume := blockL * blockW * blockH in
      let totalFilled := Js.num_or (filled_volume result) 0 in
      mkStats
        match item_counts result with
        | Some counts => fold_left addCount (map_to_list counts) ∅
        | None => ∅
        end
        totalFilled (Js.num_or waste 0) totalVolume
        (q_or (utilization result) 0)
        (100 - q_or (utilization result) 0)%Q
  | _ =>
      match tree with
      | Some t =>
          calculateStatisticsNew (Some t) catalogue (blockL, blockW, blockH)
      | None =>
          mkStats ∅ 0 (blockL * blockW * blockH) (blockL * blockW * blockH)
                  0%Q 100%Q
      end
  end.

(** [.sort((a, b) => a.id - b.id)]: the stable sort by id. *)
Fixpoint insert_by_id (x : Item) (sorted : list Item) : list Item :=
  match sorted with
  | [] => [x]
  | y :: rest =>
      if id x <=? id y then x :: y :: rest else y :: insert_by_id x rest
  end.

Fixpoint sort_by_id (items : list Item) : list Item :=
  match items with
  | [] => []
  | x :: rest => insert_by_id x (sort_by_id rest)
  end.

(** A line of the item list of the report: the colour ([None] for the
    grey [0x888888] of an item that has no colour), the id, the count and
    the share [item.stats.volume / stats.totalVolume * 100] ([None] when
    the block volume is 0). *)
Record Line : Type := mkLine {
  line_color : option Color.HSL;
  line_id : Z;
  line_count : Z;
  line_percent : option Q
}.

(** The item list of the report; it is left out when [stats.items] is
    empty. *)
Definition reportLines (catalogue : list Item) (st : Stats) (w : World)
    : list Line :=
  if decide (size (items st) = 0%nat) then []
  else
    List.map
      (fun item =>
         let itemStats :=
           default (mkItemStat (Js.IdNum (id item)) 0 0)
                   (lookup_num (items st) (id item)) in
         mkLine (itemColorMap w !! Js.key (Js.IdNum (id item)))
                (id item) (count itemStats)
                (Views.ratio100 (volume itemStats) (totalVolume st)))
      (sort_by_id catalogue).

End App.

(** ** The scene graph: [clearScene] and [addBlockWireframe] (app.js) *)

Module Stage.
Import Scene.

Inductive Light : Type :=
| DirectionalLight (intensity : Q) (position : Z * Z * Z)
| AmbientLight (intensity : Q).

(** A child of the scene: a light, an object added by [addBox], or the
    wireframe of a block, given by what [addBlockWireframe] was called
    with. *)
Inductive Child : Type :=
| ALight (l : Light)
| AnObject (obj : Object3D)
| AWireframe (x y z L W H : Z).

(** The scene with its lights, and the globals [clearScene] resets;
    [Scene.World] keeps of the scene the objects of [addBox] only. *)
Record Globals : Type := mkGlobals {
  children : option (list Child);
  meshes : list Object3D;
  labels : list (Z * Z * Z);
  blockWireframe : option Child
}.

Definition is_light (c : Child) : bool :=
  match c with
  | ALight _ => true
  | _ => false
  end.

(** The three lights [clearScene] puts back when none is left. *)
Definition default_lights : list Child :=
  [ALight (DirectionalLight 1 (1000, 2000, 1000));
   ALight (DirectionalLight 0.4 (-1000, 500, -1000));
   ALight (AmbientLight 0.5)].

(** [clearScene()] *)
Definition clearScene (g : Globals) : Globals :=
  match children g with
  | None => g
  | Some cs =>
      let kept := List.filter is_light cs in
      mkGlobals
        (Some (if decide (List.length (List.filter is_light kept) = 0%nat)
               then kept ++ default_lights else kept))
        [] [] None
  end.

(** [addBlockWireframe(x, y, z, L, W, H)]; the result pairs the globals
    with the wireframe returned ([None] for [null]). *)
Definition addBlockWireframe (x y z L W H : Z) (g : Globals)
    : Globals * option Child :=
  match children g with
  | None => (g, None)
  | Some cs =>
      let wireframe := AWireframe x y z L W H in
      (mkGlobals (Some (cs ++ [wireframe])) (meshes g) (labels g)
                 (blockWireframe g),
       Some wireframe)
  end.

(** The start of a run in the handler of app.js: [clearScene()], then
    [blockWireframe = addBlockWireframe(0, 0, 0, blockL, blockW, blockH)]. *)
Definition startRun (blockL blockW blockH : Z) (g : Globals) : Globals :=
  let g1 := clearScene g in
  let '(g2, wf) := addBlockWireframe 0 0 0 blockL blockW blockH g1 in
  mkGlobals (children g2) (meshes g2) (labels g2) wf.

End Stage.

(** ** Sub-blocks: [visualizeSubBlocks] (app.js) *)

Module SubBlocks.
Import Scene.

(** A node of [cuttingTree.nodes]: [dimensions] is [{L, W, H}] and
    [origin] is [{x, y, z}]. *)
Inductive pnode : Type := PNode {
  type : option string;
  dimensions : Z * Z * Z;
  origin : Z * Z * Z;
  children : option (list pnode)
}.

Section Grey.

(** The colour [0xaaaaaa] handed to [addBox], which [addBox] does not
    use for a sub-block. *)
Variable grey : Color.HSL.

(** The test and the call of [renderNode] for one node. *)
Definition renderOne (w : World) (node : pnode) : World :=
  if Js.str_is (type node) "sub-block" then
    let '(L, W, H) := dimensions node in
    let '(x, y, z) := origin node in
    fst (addBox x y z L W H grey 0.15 None true w)
  else w.

(** [renderNode(node)] *)
Fixpoint renderNode (node : pnode) (w : World) {struct node} : World :=
  let w1 := renderOne w node in
  match children node with
  | Some cs => fold_left (fun st child => renderNode child st) cs w1
  | None => w1
  end.

(** [visualizeSubBlocks(cuttingTree)], on [cuttingTree.nodes]. *)
Definition visualizeSubBlocks (nodes : option (list pnode)) (w : World)
    : World :=
  match nodes with
  | Some (root :: _) => renderNode root w
  | _ => w
  end.

End Grey.

End SubBlocks.

(** ** Vocabulary of the further properties *)

Module Further.
Import Tree Scene Draw Stats.

(** A box as the renderers add it: positive sides, no sub-block. *)
Definition item_box (b : Box) : Prop :=
  0 < box_L b /\ 0 < box_W b /\ 0 < box_H b /\ box_isSubBlock b = false.

(** Every box of an item on display has the colour on record for the
    item. *)
Definition coloured (w : World) : Prop :=
  forall b itemId,
    In b (placed w) -> box_itemId b = Some itemId ->
    itemColorMap w !! Js.key itemId = Some (box_color b).

(** The two colour dictionaries go together: the same keys, an index
    below the number of keys for each, no index given twice, and each
    colour the one [getItemColor] gives an id of that key at the index
    of the key. *)
Definition indexed (w : World) : Prop :=
  (forall k, is_Some (itemColorMap w !! k) <-> is_Some (itemIndexMap w !! k))
  /\ (forall k i, itemIndexMap w !! k = Some i -> (i < size (itemColorMap w))%nat)
  /\ (forall k k' i,
         itemIndexMap w !! k = Some i -> itemIndexMap w !! k' = Some i -> k = k')
  /\ (forall k c,
         itemColorMap w !! k = Some c ->
         exists itemId i,
           Js.key itemId = k /\ itemIndexMap w !! k = Some i
           /\ c = Color.getItemColor itemId i).

(** Boxes of one item, by the text of its id, have one colour. *)
Definition one_colour_per_item (w : World) : Prop :=
  forall b1 b2 i1 i2,
    In b1 (placed w) -> In b2 (placed w) ->
    box_itemId b1 = Some i1 -> box_itemId b2 = Some i2 ->
    Js.key i1 = Js.key i2 ->
    box_color b1 = box_color b2.

(** A world before [init3D] has made a scene. *)
Definition unready : World := mkWorld None [] [] 1 ∅ ∅.

(** The world with another opacity setting. *)
Definition with_opacity (q : Q) (w : World) : World :=
  mkWorld (scene w) (itemMeshes w) (itemLabels w) q
          (itemColorMap w) (itemIndexMap w).

(** What a run of a renderer may change: the display grows at its end,
    colours on record stay, the rest is kept. *)
Definition extends (w w' : World) : Prop :=
  (exists new, itemMeshes w' = itemMeshes w ++ new)
  /\ itemLabels w' = itemLabels w
  /\ currentOpacity w' = currentOpacity w
  /\ Js.defined (scene w') = Js.defined (scene w)
  /\ itemColorMap w ⊆ itemColorMap w'.

(** The sum of a figure over the entries of the statistics. *)
Definition sum_over (f : ItemStat -> Z) (m : gmap string ItemStat) : Z :=
  map_fold (fun _ e acc => f e + acc) 0 m.

(** The entries are well kept: each under the text of its own id, with
    a count of at least 1. *)
Definition well_kept (m : gmap string ItemStat) : Prop :=
  forall k e, m !! k = Some e -> Js.key (stat_id e) = k /\ 1 <= count e.

(** Where a box is and how large. *)
Definition geometry (b : Box) : Vec3 * Vec3 :=
  ((box_x b, box_y b, box_z b), (box_L b, box_W b, box_H b)).

(** Every colour on record is the one [getItemColor] gives the key, as a
    string, at the index of the key. *)
Definition hashed_by_text (w : World) : Prop :=
  forall k c,
    itemColorMap w !! k = Some c ->
    exists i, itemIndexMap w !! k = Some i
              /\ c = Color.getItemColor (Js.IdStr k) i.

(** Where a placement of the response is to be and how large. *)
Definition asked (item : Placed) : Vec3 * Vec3 :=
  (position item, dimensions item).

(** A placement [addBox] accepts. *)
Definition accepted (p : Placed) : bool :=
  let '(dl, dw, dh) := dimensions p in
  negb ((dl <=? 0) || (dw <=? 0) || (dh <=? 0)).

(** The nodes below a node of [cuttingTree.nodes], itself first, in the
    order [renderNode] visits them. *)
Fixpoint visited (node : SubBlocks.pnode) : list SubBlocks.pnode :=
  node ::
  match SubBlocks.children node with
  | Some cs => List.flat_map visited cs
  | None => []
  end.

(** The nodes [visualizeSubBlocks] looks at: those below the first
    root. *)
Definition looked_at (nodes : option (list SubBlocks.pnode))
    : list SubBlocks.pnode :=
  match nodes with
  | Some (root :: _) => visited root
  | _ => []
  end.

(** The sub-blocks [addBox] accepts. *)
Definition shown_sub_block (node : SubBlocks.pnode) : bool :=
  Js.str_is (SubBlocks.type node) "sub-block"
  && let '(L, W, H) := SubBlocks.dimensions node in
     negb ((L <=? 0) || (W <=? 0) || (H <=? 0)).

(** Ids in ascending order. *)
Fixpoint ascending (ids : list Z) : Prop :=
  match ids with
  | [] => True
  | x :: rest => Forall (fun y => x <= y) rest /\ ascending rest
  end.

End Further.

(** ** The percentages of [calculateStatisticsNew] as doubles *)

Module Rounded.

(** A JavaScript number: an IEEE 754 binary64 value. *)
Definition double : Type := SpecFloat.spec_float.

Definition prec : Z := 53.
Definition emax : Z := 1024.

(** The double of an integer: the integer itself below 2^53, the nearest
    double (ties to even) above. *)
Definition of_Z (n : Z) : double :=
  SpecFloat.binary_normalize prec emax n 0 false.

(** [x / y], [x * y] and [x - y], each rounded to the nearest double. *)
Definition div (x y : double) : double := SpecFloat.SFdiv prec emax x y.
Definition mul (x y : double) : double := SpecFloat.SFmul prec emax x y.
Definition sub (x y : double) : double := SpecFloat.SFsub prec emax x y.

(** [x / y * 100]: rounded after the division and again after the
    multiplication. *)
Definition percent (x y : Z) : double := mul (div (of_Z x) (of_Z y)) (of_Z 100).

(** [stats.totalVolume > 0 ? (stats.totalFilled / stats.totalVolume * 100) : 0]
    on the totals that [calculateStatisticsNew] has stored. *)
Definition fillPercent (stats : Stats.Stats) : double :=
  if 0 <? Stats.totalVolume stats
  then percent (Stats.totalFilled stats) (Stats.totalVolume stats)
  else of_Z 0.

(** [stats.totalVolume > 0 ? (stats.totalWaste / stats.totalVolume * 100) : 0] *)
Definition wastePercent (stats : Stats.Stats) : double :=
  if 0 <? Stats.totalVolume stats
  then percent (Stats.totalWaste stats) (Stats.totalVolume stats)
  else of_Z 0.

End Rounded.

(** ** [buildCuttingTreeHTML] on a program as it arrives *)

Module Formatter.

(** What a call does: it returns a value or throws. *)
Inductive Error : Type := TypeError | RangeError.

Inductive Outcome (A : Type) : Type :=
| Returns (a : A)
| Throws (e : Error).
Arguments Returns {A} a.
Arguments Throws {A} e.

(** [step.node]: [depth] and [volume] are numbers or absent. *)
Record StepNode : Type := mkStepNode {
  depth : option Z;
  volume : option Z
}.

(** A step of [sequence]; [node] is absent when the producer sends the
    step without it. *)
Record Step : Type := mkStep {
  seq : Z;
  operation : string;
  description : string;
  node : option StepNode
}.

Record CuttingTree : Type := mkCuttingTree {
  sequence : option (list Step);
  total_nodes : option Z;
  total_cuts : option Z;
  total_items : option Z;
  conflicts : option (list Program.Conflict)
}.

(** ['  '.repeat(n)]: a [RangeError] for a negative count.  The bound
    that an engine puts on the length of a string is not modelled. *)
Definition repeat_indent (n : Z) : Outcome string :=
  if n <? 0 then Throws RangeError
  else Returns (Program.indent_of (Z.to_nat n)).

(** The body of [cuttingTree.sequence.forEach((step, index) => ...)];
    [node.depth] is a [TypeError] when [step.node] is [undefined]. *)
Definition renderStep (index : nat) (step : Step) : Outcome Program.Html :=
  let bgColor := if Nat.even index then "#ffffff" else "#f9f9f9" in
  let '(operationColor, operationIcon) :=
    if String.eqb (operation step) "START" then ("#2196F3", Program.IconPackage)
    else if String.eqb (operation step) "CUT" then ("#ff5722", Program.IconScissors)
    else if String.eqb (operation step) "SUB-BLOCK" then ("#9c27b0", Program.IconTriangle)
    else if String.eqb (operation step) "ITEM" then ("#4caf50", Program.IconCheck)
    else ("#000", Program.IconNone) in
  match node step with
  | None => Throws TypeError
  | Some node =>
      match repeat_indent (Js.num_or (depth node) 0) with
      | Throws e => Throws e
      | Returns indent =>
          let vol :=
            match volume node with
            | Some v => if Js.truthy_num v then Some (Js.String_of_num v) else None
            | None => None
            end in
          Returns (Program.TableRow bgColor operationColor operationIcon
                     (Js.String_of_num (seq step)) (operation step)
                     (String.append indent (description step)) vol)
      end
  end.

(** [forEach] from position [index] on: the rows, unless a step throws. *)
Fixpoint renderSteps (index : nat) (steps : list Step)
    : Outcome (list Program.Html) :=
  match steps with
  | [] => Returns []
  | step :: rest =>
      match renderStep index step with
      | Throws e => Throws e
      | Returns row =>
          match renderSteps (S index) rest with
          | Throws e => Throws e
          | Returns more => Returns (row :: more)
          end
      end
  end.

(** [buildCuttingTreeHTML(cuttingTree)]: the markup, or the exception of
    the first step that throws. *)
Definition buildCuttingTreeHTML (cuttingTree : option CuttingTree)
    : Outcome (list Program.Html) :=
  match cuttingTree with
  | None => Returns []
  | Some ct =>
      match sequence ct with
      | None => Returns []
      | Some steps =>
          match renderSteps 0 steps with
          | Throws e => Throws e
          | Returns table =>
              Returns
                ([Program.Open;
                  Program.Header (Js.num_or (total_nodes ct) 0)
                                 (Js.num_or (total_cuts ct) 0)
                                 (Js.num_or (total_items ct) 0)]
                 ++ match conflicts ct with
                    | Some (c :: cs) =>
                        [Program.ConflictsOpen (List.length (c :: cs))]
                        ++ List.map (fun conflict =>
                                       Program.ConflictLine
                                         (Program.conflict_description conflict))
                                    (c :: cs)
                        ++ [Program.ConflictsClose]
                    | _ => [Program.NoConflicts]
                    end
                 ++ [Program.TableHead]
                 ++ table
                 ++ [Program.TableEnd; Program.Close])
          end
      end
  end.


(** What a row shows of a step that has its [node]: the number, the
    operation, the indented description. *)
Definition shown (step : Step) : string * string * string :=
  (Js.String_of_num (seq step), operation step,
   String.append
     (match node step with
      | Some node => Program.indent_of (Z.to_nat (Js.num_or (depth node) 0))
      | None => EmptyString
      end)
     (description step)).



End Formatter.

(** ** Further sample inputs *)

Module Cases.
Import Tree Scene Stats.

(** A response whose [item_counts] has a key that is no number. *)
Definition stray_key : Result :=
  mkResult (Some [mkPlaced (Js.IdStr "x9") (0, 0, 0) (10, 10, 10)])
           (Some 1000) (Some 1%Q) (Some {[ "x9" := 3 ]}).

(** A response with a placement of no height between two good ones. *)
Definition with_flat_item : Result :=
  mkResult (Some [mkPlaced (Js.IdNum 1) (0, 0, 0) (100, 50, 30);
                  mkPlaced (Js.IdNum 2) (0, 52, 0) (40, 40, 0);
                  mkPlaced (Js.IdNum 1) (102, 0, 0) (100, 50, 30)])
           (Some 300000) (Some 25%Q) (Some {[ "1" := 2 ]}).

(** A scene as [init3D] leaves it, with a mesh and a wireframe added. *)
Definition used_stage : Stage.Globals :=
  Stage.mkGlobals
    (Some [Stage.ALight (Stage.DirectionalLight 1 (1000, 2000, 1000));
           Stage.AWireframe 0 0 0 200 100 60;
           Stage.ALight (Stage.AmbientLight 0.5);
           Stage.AnObject
             (Mesh (mkBox 0 0 0 100 50 30 (Color.mkHSL 0 80 55) 1 None false))])
    [Mesh (mkBox 0 0 0 100 50 30 (Color.mkHSL 0 80 55) 1 None false)]
    [] (Some (Stage.AWireframe 0 0 0 200 100 60)).

(** [cuttingTree.nodes] with a block, a sub-block in it, and an item and
    a sub-block of no width in that. *)
Definition sub_block_nodes : list SubBlocks.pnode :=
  [SubBlocks.PNode (Some "block") (200, 100, 60) (0, 0, 0)
     (Some [SubBlocks.PNode (Some "sub-block") (100, 100, 60) (0, 0, 0)
              (Some [SubBlocks.PNode (Some "item") (100, 50, 30) (0, 0, 0) None;
                     SubBlocks.PNode (Some "sub-block") (100, 0, 60) (0, 52, 0) None])]);
   SubBlocks.PNode (Some "sub-block") (50, 50, 50) (0, 0, 0) None].





End Cases.
(** * Properties *)

(** ** JavaScript helpers *)

Section JsFacts.

Lemma num_or_zero (n : Z) : Js.num_or (Some n) 0 = n.
Proof.
  unfold Js.num_or, Js.truthy_num.
  destruct (Z.eqb_spec n 0) as [-> | _]; reflexivity.
Qed.

Lemma num_or_nonzero (n d : Z) : n <> 0 -> Js.num_or (Some n) d = n.
Proof.
  intros Hn. unfold Js.num_or, Js.truthy_num.
  destruct (Z.eqb_spec n 0); [contradiction | reflexivity].
Qed.

Lemma truthy_letter (a : Tree.Axis) : Js.truthy_str (Tree.letter a) = true.
Proof. destruct a; reflexivity. Qed.

End JsFacts.

(** ** [addBox] and the leaf branch *)

Section Boxes.
Import Tree Scene Draw Spec.

Implicit Types (w : World) (o d : Vec3).

Lemma placements_app (xs ys : list Object3D) :
  placements (xs ++ ys) = placements xs ++ placements ys.
Proof.
  induction xs as [| [b | b] xs IH]; simpl; [reflexivity | | assumption].
  now rewrite IH.
Qed.

Lemma placements_move d (xs : list Object3D) :
  placements (List.map (move_object d) xs) = List.map (move d) (placements xs).
Proof.
  induction xs as [| [b | b] xs IH]; simpl; [reflexivity | | assumption].
  now rewrite IH.
Qed.

Lemma sum_volumes_app (xs ys : list Box) :
  sum_volumes (xs ++ ys) = sum_volumes xs + sum_volumes ys.
Proof.
  unfold sum_volumes. induction xs as [| b xs IH]; simpl; [reflexivity |].
  rewrite IH. lia.
Qed.

Lemma agree_refl w : agree w w.
Proof. unfold agree. tauto. Qed.

(** [addBox] refuses a box with a side that is not positive. *)
Lemma addBox_refuses x y z L W H c op i sb w :
  L <= 0 \/ W <= 0 \/ H <= 0 ->
  addBox x y z L W H c op i sb w = (w, None).
Proof.
  intros Hdim. unfold addBox. destruct (scene w); [| reflexivity].
  assert ((L <=? 0) || (W <=? 0) || (H <=? 0) = true) as ->; [| reflexivity].
  rewrite !orb_true_iff, !Z.leb_le. tauto.
Qed.

(** With a scene and positive sides it adds the mesh and its edges. *)
Lemma addBox_adds x y z L W H c op i sb w :
  initialised w -> 0 < L -> 0 < W -> 0 < H ->
  exists b w',
    addBox x y z L W H c op i sb w = (w', Some b)
    /\ origin_of b = (x, y, z)
    /\ size_of b = (L, W, H)
    /\ box_color b = c
    /\ itemMeshes w' = itemMeshes w ++ [Mesh b; LineSegments b]
    /\ initialised w'
    /\ itemColorMap w' = itemColorMap w
    /\ itemIndexMap w' = itemIndexMap w.
Proof.
  intros Hs HL HW HH. unfold addBox, initialised in *.
  destruct (scene w) as [objs |]; [| contradiction].
  assert ((L <=? 0) || (W <=? 0) || (H <=? 0) = false) as ->.
  { rewrite !orb_false_iff, !Z.leb_gt. tauto. }
  eexists _, _. split; [reflexivity |]. simpl. repeat split; congruence.
Qed.

(** The same call at two origins, in two worlds that agree. *)
Lemma addBox_moved x y z L W H c op i sb w w' d :
  agree w w' ->
  exists new,
    let '(dx, dy, dz) := d in
    let w1 := fst (addBox x y z L W H c op i sb w) in
    let w2 := fst (addBox (x + dx) (y + dy) (z + dz) L W H c op i sb w') in
    agree w1 w2
    /\ itemMeshes w1 = itemMeshes w ++ new
    /\ itemMeshes w2 = itemMeshes w' ++ List.map (move_object d) new.
Proof.
  intros (Hc & Hi & Ho & Hs). destruct d as [[dx dy] dz]. unfold addBox.
  destruct (scene w) as [objs |] eqn:Hw, (scene w') as [objs' |] eqn:Hw';
    try discriminate Hs.
  - destruct ((L <=? 0) || (W <=? 0) || (H <=? 0)).
    + exists []. simpl. rewrite !app_nil_r. unfold agree.
      rewrite Hc, Hi, Ho, Hw, Hw'. auto.
    + eexists [_; _]. simpl. unfold agree. simpl.
      repeat split; try assumption; reflexivity.
  - exists []. simpl. rewrite !app_nil_r. unfold agree.
    rewrite Hc, Hi, Ho, Hw, Hw'. auto.
Qed.

Lemma drawLeaf_moved id o d L W H w w' :
  agree w w' ->
  exists new,
    agree (drawLeaf id o L W H w) (drawLeaf id (plus o d) L W H w')
    /\ itemMeshes (drawLeaf id o L W H w) = itemMeshes w ++ new
    /\ itemMeshes (drawLeaf id (plus o d) L W H w')
       = itemMeshes w' ++ List.map (move_object d) new.
Proof.
  intros Hag. destruct o as [[x y] z]. unfold drawLeaf, colorFor.
  destruct Hag as (Hc & Hi & Ho & Hs). rewrite <- Hc, <- Hi.
  destruct (itemColorMap w !! Js.key id) as [col |]; simpl.
  - destruct d as [[dx dy] dz]. simpl. rewrite <- Ho.
    apply (addBox_moved x y z L W H col (currentOpacity w) (Some id) false
             w w' (dx, dy, dz)).
    unfold agree. tauto.
  - destruct d as [[dx dy] dz]. simpl. rewrite <- Ho.
    match goal with
    | |- context [addBox _ _ _ _ _ _ ?c _ _ _ (set_maps ?cm ?im w)] =>
        apply (addBox_moved x y z L W H c (currentOpacity w) (Some id) false
                 (set_maps cm im w) (set_maps cm im w') (dx, dy, dz))
    end.
    unfold agree, set_maps. simpl. tauto.
Qed.

(** A leaf with a side that is not positive puts nothing on display. *)
Lemma drawLeaf_dropped id o L W H w :
  L <= 0 \/ W <= 0 \/ H <= 0 ->
  itemMeshes (drawLeaf id o L W H w) = itemMeshes w
  /\ scene (drawLeaf id o L W H w) = scene w.
Proof.
  intros Hdim. destruct o as [[x y] z]. unfold drawLeaf.
  destruct (colorFor id w) as [col w1] eqn:Hcf.
  rewrite addBox_refuses by assumption. simpl.
  pose proof (f_equal snd Hcf) as Hw1. simpl in Hw1. subst w1.
  unfold colorFor. destruct (itemColorMap w !! Js.key id); simpl; tauto.
Qed.

(** With a scene and positive sides it puts one box there, at the
    origin it was given. *)
Lemma drawLeaf_adds id o L W H w :
  initialised w -> 0 < L -> 0 < W -> 0 < H ->
  exists b,
    itemMeshes (drawLeaf id o L W H w)
    = itemMeshes w ++ [Mesh b; LineSegments b]
    /\ origin_of b = o
    /\ size_of b = (L, W, H)
    /\ initialised (drawLeaf id o L W H w).
Proof.
  intros Hs HL HW HH. destruct o as [[x y] z]. unfold drawLeaf.
  destruct (colorFor id w) as [col w1] eqn:Hcf.
  assert (scene w1 = scene w /\ itemMeshes w1 = itemMeshes w) as [Hs1 Hm1].
  { pose proof (f_equal snd Hcf) as Hw1. simpl in Hw1. subst w1.
    unfold colorFor. destruct (itemColorMap w !! Js.key id); simpl; tauto. }
  assert (initialised w1) as Hi1 by (unfold initialised; congruence).
  destruct (addBox_adds x y z L W H col (currentOpacity w1) (Some id) false
              w1 Hi1 HL HW HH)
    as (b & w' & -> & Ho & Hsz & _ & Hm & Hi & _).
  exists b. simpl. rewrite Hm, Hm1. tauto.
Qed.

End Boxes.

(** ** The two renderers on canonical trees *)

Section Equations.
Import Tree Scene Draw Spec.

Implicit Types (w : World) (o d dims : Vec3) (t : CutNode).

Lemma drawTreeNew_leaf i l wd h dims k o w :
  drawTreeNew (current (Leaf i l wd h)) dims k o w
  = if Js.truthy_id i
    then let '(L, W, H) := sizeNew dims l wd h in drawLeaf i o L W H w
    else w.
Proof.
  destruct dims as [[bL bW] bH]. cbn.
  destruct (Js.truthy_id i); reflexivity.
Qed.

Lemma drawTreeNew_cut a p lt rt dims k o w :
  drawTreeNew (current (Cut a p lt rt)) dims k o w
  = drawTreeNew (current rt) dims k (shift a o (p + k))
      (drawTreeNew (current lt) dims k o w).
Proof.
  destruct dims as [[bL bW] bH], o as [[x y] z].
  cbn [current drawTreeNew item_id cut_dir left_pattern right_pattern
       cut_pos Js.truthy Js.defined andb orb negb default].
  rewrite truthy_letter, num_or_zero. cbn [andb default].
  destruct a; cbn; rewrite <- Z.add_assoc; reflexivity.
Qed.

Lemma drawTree_leaf i l wd h dims k o w :
  drawTree (legacy (Leaf i l wd h)) dims k o w
  = if Js.truthy_id i then drawLeaf i o l wd h w else w.
Proof.
  destruct dims as [[bL bW] bH]. cbn.
  destruct (Js.truthy_id i); reflexivity.
Qed.

Lemma drawTree_cut a p lt rt dims k o w :
  drawTree (legacy (Cut a p lt rt)) dims k o w
  = drawTree (legacy rt) dims k (shift (legacy_axis a) o (p + k))
      (drawTree (legacy lt) dims k o w).
Proof.
  destruct dims as [[bL bW] bH], o as [[x y] z].
  cbn [legacy drawTree item_id cut_dir length kind box children axis pos
       Js.truthy Js.defined Js.str_is andb orb negb default].
  rewrite num_or_zero.
  destruct a; cbn; rewrite <- Z.add_assoc; reflexivity.
Qed.

End Equations.

(** ** What any renderer with these two equations does *)

Section Renderer.
Import Tree Scene Draw Spec.

Variable render : CutNode -> Vec3 -> World -> World.
Variable sizeOf : Z -> Z -> Z -> Vec3.
Variable axisOf : Axis -> Axis.
Variable kerf : Z.

Hypothesis render_leaf : forall i l wd h o w,
  render (Leaf i l wd h) o w
  = if Js.truthy_id i
    then let '(L, W, H) := sizeOf l wd h in drawLeaf i o L W H w
    else w.

Hypothesis render_cut : forall a p lt rt o w,
  render (Cut a p lt rt) o w
  = render rt (shift (axisOf a) o (p + kerf)) (render lt o w).

Lemma shift_plus a o d e : shift a (plus o d) e = plus (shift a o e) d.
Proof.
  destruct o as [[x y] z], d as [[dx dy] dz], a; cbn;
    (apply f_equal2; [apply f_equal2 |]); lia.
Qed.

(** Reconstruction from a moved origin moves every box by as much and
    changes nothing else. *)
Lemma render_moved t : forall o d w w',
  agree w w' ->
  exists new,
    agree (render t o w) (render t (plus o d) w')
    /\ itemMeshes (render t o w) = itemMeshes w ++ new
    /\ itemMeshes (render t (plus o d) w')
       = itemMeshes w' ++ List.map (move_object d) new.
Proof.
  induction t as [i l wd h | a p lt IHl rt IHr]; intros o d w w' Hag.
  - rewrite !render_leaf. destruct (Js.truthy_id i).
    + destruct (sizeOf l wd h) as [[L W] H]. now apply drawLeaf_moved.
    + exists []. cbn. rewrite !app_nil_r. auto.
  - rewrite !render_cut, shift_plus.
    destruct (IHl o d w w' Hag) as (new1 & Hag1 & Hm1 & Hm1').
    destruct (IHr (shift (axisOf a) o (p + kerf)) d _ _ Hag1)
      as (new2 & Hag2 & Hm2 & Hm2').
    exists (new1 ++ new2). split; [assumption |].
    rewrite Hm2, Hm2', Hm1, Hm1', List.map_app, <- !app_assoc. auto.
Qed.

(** The scene stays in place. *)
Lemma render_initialised t : forall o w,
  initialised w -> initialised (render t o w).
Proof.
  induction t as [i l wd h | a p lt IHl rt IHr]; intros o w Hw.
  - rewrite render_leaf. destruct (Js.truthy_id i); [| assumption].
    destruct (sizeOf l wd h) as [[L W] H].
    destruct (Z_le_gt_dec L 0) as [HL | HL];
      [| destruct (Z_le_gt_dec W 0) as [HW | HW];
         [| destruct (Z_le_gt_dec H 0) as [HH | HH]]].
    1-3: unfold initialised;
         rewrite (proj2 (drawLeaf_dropped i o L W H w ltac:(tauto)));
         exact Hw.
    destruct (drawLeaf_adds i o L W H w Hw) as (b & _ & _ & _ & Hi); [lia.. |].
    exact Hi.
  - rewrite render_cut. apply IHr, IHl, Hw.
Qed.

Hypothesis sizeOf_positive : forall l wd h,
  0 < l -> 0 < wd -> 0 < h -> sizeOf l wd h = (l, wd, h).

(** With positive sides throughout, what is put on display is the
    leaves with a truthy id, each with its own size. *)
Lemma render_volume t : forall o w,
  initialised w ->
  Forall leaf_positive (counted t) ->
  sum_volumes (placed (render t o w))
  = sum_volumes (placed w) + sum_leaf_volumes (counted t).
Proof.
  unfold counted.
  induction t as [i l wd h | a p lt IHl rt IHr]; intros o w Hw Hpos.
  - rewrite render_leaf. cbn in *. destruct (Js.truthy_id i); cbn in *.
    + apply Forall_inv in Hpos. destruct Hpos as (Hl & Hwd & Hh).
      rewrite sizeOf_positive by assumption.
      destruct (drawLeaf_adds i o l wd h w Hw Hl Hwd Hh)
        as (b & Hm & _ & Hsz & _).
      unfold placed. rewrite Hm, placements_app, sum_volumes_app. cbn.
      unfold volume_of_box. injection Hsz as -> -> ->. lia.
    + lia.
  - rewrite render_cut. cbn [leaves] in *.
    rewrite List.filter_app in *. apply Forall_app in Hpos as [Hpl Hpr].
    rewrite IHr, IHl by (try apply render_initialised; assumption).
    unfold sum_leaf_volumes. rewrite fold_right_app.
    generalize (List.filter (λ lf, Js.truthy_id (leaf_id lf)) (leaves lt)).
    intros xs. induction xs as [| x xs IH]; cbn; lia.
Qed.

End Renderer.

(** ** The statistics of the tree *)

Section Counting.
Import Tree Stats Spec.

Implicit Types (acc : Acc) (t : CutNode) (k : string).

(** One leaf on record: one more under its key, its volume added. *)
Lemma record_spec id v acc k :
  acc_totalFilled (record id v acc) = acc_totalFilled acc + v
  /\ count_at k (acc_items (record id v acc))
     = count_at k (acc_items acc) + bump (String.eqb (Js.key id) k) 1
  /\ volume_at k (acc_items (record id v acc))
     = volume_at k (acc_items acc) + bump (String.eqb (Js.key id) k) v.
Proof.
  unfold record, count_at, volume_at, bump. cbn.
  split; [reflexivity |]. rewrite lookup_alter.
  destruct (decide (Js.key id = k)) as [<- | Hne].
  - rewrite String.eqb_refl.
    destruct (acc_items acc !! Js.key id) as [e |] eqn:He.
    + rewrite He. cbn. lia.
    + rewrite lookup_insert_eq. cbn. lia.
  - apply String.eqb_neq in Hne as Hb. rewrite Hb.
    destruct (acc_items acc !! Js.key id); [lia |].
    rewrite lookup_insert_ne by assumption. lia.
Qed.

Lemma countItems_current_leaf i l wd h acc :
  countItems (current (Leaf i l wd h)) acc
  = if Js.truthy_id i then record i (l * wd * h) acc else acc.
Proof.
  cbn -[Js.num_or Z.mul]. unfold countNew, countLegacy.
  cbn -[Js.num_or Z.mul]. rewrite !num_or_zero.
  destruct (Js.truthy_id i); reflexivity.
Qed.

Lemma countItems_current_cut a p lt rt acc :
  countItems (current (Cut a p lt rt)) acc
  = countItems (current rt) (countItems (current lt) acc).
Proof. reflexivity. Qed.

(** A legacy leaf passes both tests of [countItems]: the first one
    records it with the volume 0 of its absent [length], [width] and
    [height], the second one with the volume of its [box]. *)
Lemma countItems_legacy_leaf i l wd h acc :
  countItems (legacy (Leaf i l wd h)) acc
  = if Js.truthy_id i then record i (l * wd * h) (record i 0 acc) else acc.
Proof.
  cbn -[Z.mul]. unfold countNew, countLegacy. cbn -[Z.mul record].
  destruct (Js.truthy_id i); reflexivity.
Qed.

Lemma countItems_legacy_cut a p lt rt acc :
  countItems (legacy (Cut a p lt rt)) acc
  = countItems (legacy rt) (countItems (legacy lt) acc).
Proof. reflexivity. Qed.

Lemma sum_leaf_volumes_app xs ys :
  sum_leaf_volumes (xs ++ ys) = sum_leaf_volumes xs + sum_leaf_volumes ys.
Proof.
  unfold sum_leaf_volumes. induction xs as [| x xs IH]; cbn; [reflexivity |].
  rewrite IH. lia.
Qed.

Lemma counted_cut a p lt rt : counted (Cut a p lt rt) = counted lt ++ counted rt.
Proof. unfold counted. cbn. apply List.filter_app. Qed.

Lemma counted_at_cut k a p lt rt :
  counted_at k (Cut a p lt rt) = counted_at k lt ++ counted_at k rt.
Proof. unfold counted_at. rewrite counted_cut. apply List.filter_app. Qed.

Lemma counted_leaf k i l wd h :
  counted (Leaf i l wd h)
  = (if Js.truthy_id i then [(i, l, wd, h)] else [])
  /\ counted_at k (Leaf i l wd h)
     = (if Js.truthy_id i && String.eqb (Js.key i) k then [(i, l, wd, h)]
        else []).
Proof.
  unfold counted_at, counted. cbn.
  destruct (Js.truthy_id i); cbn; [| auto].
  destruct (String.eqb (Js.key i) k); auto.
Qed.

(** The tally of a current-schema tree. *)
Lemma countItems_current t : forall acc k,
  acc_totalFilled (countItems (current t) acc)
  = acc_totalFilled acc + sum_leaf_volumes (counted t)
  /\ count_at k (acc_items (countItems (current t) acc))
     = count_at k (acc_items acc) + Z.of_nat (List.length (counted_at k t))
  /\ volume_at k (acc_items (countItems (current t) acc))
     = volume_at k (acc_items acc) + sum_leaf_volumes (counted_at k t).
Proof.
  induction t as [i l wd h | a p lt IHl rt IHr]; intros acc k.
  - rewrite countItems_current_leaf.
    destruct (counted_leaf k i l wd h) as [-> ->].
    destruct (Js.truthy_id i); [| cbn; lia].
    destruct (record_spec i (l * wd * h) acc k) as (-> & -> & ->).
    unfold bump. destruct (String.eqb (Js.key i) k); cbn; lia.
  - rewrite countItems_current_cut, counted_cut, counted_at_cut.
    destruct (IHr (countItems (current lt) acc) k) as (-> & -> & ->).
    destruct (IHl acc k) as (-> & -> & ->).
    rewrite !sum_leaf_volumes_app, List.length_app. lia.
Qed.

(** The tally of a legacy tree: volumes as above, counts doubled. *)
Lemma countItems_legacy t : forall acc k,
  acc_totalFilled (countItems (legacy t) acc)
  = acc_totalFilled acc + sum_leaf_volumes (counted t)
  /\ count_at k (acc_items (countItems (legacy t) acc))
     = count_at k (acc_items acc)
       + 2 * Z.of_nat (List.length (counted_at k t))
  /\ volume_at k (acc_items (countItems (legacy t) acc))
     = volume_at k (acc_items acc) + sum_leaf_volumes (counted_at k t).
Proof.
  induction t as [i l wd h | a p lt IHl rt IHr]; intros acc k.
  - rewrite countItems_legacy_leaf.
    destruct (counted_leaf k i l wd h) as [-> ->].
    destruct (Js.truthy_id i); [| cbn; lia].
    destruct (record_spec i (l * wd * h) (record i 0 acc) k) as (-> & -> & ->).
    destruct (record_spec i 0 acc k) as (-> & -> & ->).
    unfold bump. destruct (String.eqb (Js.key i) k); cbn; lia.
  - rewrite countItems_legacy_cut, counted_cut, counted_at_cut.
    destruct (IHr (countItems (legacy lt) acc) k) as (-> & -> & ->).
    destruct (IHl acc k) as (-> & -> & ->).
    rewrite !sum_leaf_volumes_app, List.length_app. lia.
Qed.

End Counting.

(** ** Reconstruction: offsets, schemas, volume, degenerate leaves *)

Section ReconstructionClaims.
Import Tree Scene Draw Spec Samples.

Implicit Types (w : World) (o d dims : Vec3) (t : CutNode).

Lemma shift_from_zero a o e : shift a o e = plus o (shift a (0, 0, 0) e).
Proof.
  destruct o as [[x y] z], a; cbn;
    (apply f_equal2; [apply f_equal2 |]); lia.
Qed.

Lemma placed_moved w w' new d :
  itemMeshes w' = itemMeshes w ++ List.map (move_object d) new ->
  placed w' = placed w ++ List.map (move d) (placements new).
Proof.
  intros Hm. unfold placed. now rewrite Hm, placements_app, placements_move.
Qed.

(** The boxes of a subtree drawn from [shift a o e] are those of the
    subtree drawn from [o], each moved by [e] along the axis. *)
Lemma subtree_moved (render : CutNode -> Vec3 -> World -> World)
    sizeOf axisOf kerf :
  (forall i l wd h o w,
      render (Leaf i l wd h) o w
      = if Js.truthy_id i
        then let '(L, W, H) := sizeOf l wd h in drawLeaf i o L W H w
        else w) ->
  (forall a p lt rt o w,
      render (Cut a p lt rt) o w
      = render rt (shift (axisOf a) o (p + kerf)) (render lt o w)) ->
  forall t a o e w,
  exists new,
    placed (render t o w) = placed w ++ new
    /\ placed (render t (shift a o e) w)
       = placed w ++ List.map (move (shift a (0, 0, 0) e)) new.
Proof.
  intros Hleaf Hcut t a o e w. rewrite (shift_from_zero a o e).
  destruct (render_moved render sizeOf axisOf kerf Hleaf Hcut t o
              (shift a (0, 0, 0) e) w w (agree_refl w))
    as (new & _ & Hm & Hm').
  exists (placements new). split.
  - unfold placed. now rewrite Hm, placements_app.
  - now apply placed_moved.
Qed.

(** C1, as the code has it.  A cut draws its left subtree from the
    origin it was given and its right subtree from that origin moved by
    [position + kerf] along one axis, the other two coordinates kept:
    every box of the right subtree sits where it would sit if the
    subtree were drawn from the left origin, moved by that much.  In the
    current schema V moves x, D moves y and H moves z; in the legacy
    schema H moves x, V moves y and D moves z. *)
Theorem C1_cut_offsets : forall a p lt rt dims k o w,
  (drawTreeNew (current (Cut a p lt rt)) dims k o w
   = drawTreeNew (current rt) dims k (shift a o (p + k))
       (drawTreeNew (current lt) dims k o w)
   /\ exists new,
        placed (drawTreeNew (current rt) dims k o
                  (drawTreeNew (current lt) dims k o w))
        = placed (drawTreeNew (current lt) dims k o w) ++ new
        /\ placed (drawTreeNew (current (Cut a p lt rt)) dims k o w)
           = placed (drawTreeNew (current lt) dims k o w)
             ++ List.map (move (shift a (0, 0, 0) (p + k))) new)
  /\ (drawTree (legacy (Cut a p lt rt)) dims k o w
      = drawTree (legacy rt) dims k (shift (legacy_axis a) o (p + k))
          (drawTree (legacy lt) dims k o w)
      /\ exists new,
           placed (drawTree (legacy rt) dims k o
                     (drawTree (legacy lt) dims k o w))
           = placed (drawTree (legacy lt) dims k o w) ++ new
           /\ placed (drawTree (legacy (Cut a p lt rt)) dims k o w)
              = placed (drawTree (legacy lt) dims k o w)
                ++ List.map (move (shift (legacy_axis a) (0, 0, 0) (p + k)))
                     new).
Proof.
  intros a p lt rt dims k o w. split.
  - split; [apply drawTreeNew_cut |]. rewrite drawTreeNew_cut.
    apply (subtree_moved (fun t o w => drawTreeNew (current t) dims k o w)
             (sizeNew dims) (fun a => a) k).
    + intros. apply drawTreeNew_leaf.
    + intros. apply drawTreeNew_cut.
  - split; [apply drawTree_cut |]. rewrite drawTree_cut.
    apply (subtree_moved (fun t o w => drawTree (legacy t) dims k o w)
             (fun l wd h => (l, wd, h)) legacy_axis k).
    + intros. apply drawTree_leaf.
    + intros. apply drawTree_cut.
Qed.

(** C1 as stated fails on a legacy tree: a legacy cut along V moves the
    right item along y, its x stays that of the left item. *)
Lemma C1_legacy_V_moves_y :
  List.map origin_of (placed (drawTree (legacy two_items) block 2 (0, 0, 0) cleared))
  = [(0, 0, 0); (0, 12, 0)]
  /\ (0, 12, 0) <> (0 + 10 + 2, 0, 0).
Proof. split; [vm_compute; reflexivity | discriminate]. Qed.

(** The same tree in the current schema. *)
Lemma current_V_moves_x :
  List.map origin_of (placed (drawTreeNew (current two_items) block 2 (0, 0, 0) cleared))
  = [(0, 0, 0); (12, 0, 0)].
Proof. vm_compute. reflexivity. Qed.

Lemma sizeNew_nonzero dims l wd h :
  l <> 0 -> wd <> 0 -> h <> 0 -> sizeNew dims l wd h = (l, wd, h).
Proof.
  intros Hl Hw Hh. destruct dims as [[bL bW] bH]. unfold sizeNew.
  now rewrite !num_or_nonzero.
Qed.

(** C3, as the code has it.  A legacy tree and the current tree with
    each legacy axis letter replaced by the current letter of the same
    dimension (H by V, V by D, D by H) are drawn alike, when no leaf
    that is drawn has a side equal to 0. *)
Theorem C3_schemas_agree_up_to_axis_letters : forall t dims k o w,
  Forall leaf_nonzero (counted t) ->
  drawTree (legacy t) dims k o w
  = drawTreeNew (current (relabel t)) dims k o w
  /\ placed (drawTree (legacy t) dims k o w)
     = placed (drawTreeNew (current (relabel t)) dims k o w).
Proof.
  intros t dims k o w Hnz.
  enough (drawTree (legacy t) dims k o w
          = drawTreeNew (current (relabel t)) dims k o w) as ->; [auto |].
  revert o w Hnz.
  induction t as [i l wd h | a p lt IHl rt IHr]; intros o w Hnz.
  - cbn [relabel]. rewrite drawTree_leaf, drawTreeNew_leaf.
    destruct (counted_leaf EmptyString i l wd h) as [Hc _].
    rewrite Hc in Hnz. destruct (Js.truthy_id i); [| reflexivity].
    apply Forall_inv in Hnz. destruct Hnz as (Hl & Hw & Hh).
    now rewrite sizeNew_nonzero.
  - cbn [relabel]. rewrite drawTree_cut, drawTreeNew_cut.
    rewrite counted_cut in Hnz. apply Forall_app in Hnz as [Hnl Hnr].
    rewrite IHl by assumption. now apply IHr.
Qed.

Lemma C3_schemas_agree_witness :
  Forall leaf_nonzero (counted two_items)
  /\ placed (drawTree (legacy two_items) block 2 (0, 0, 0) cleared)
     = placed (drawTreeNew (current (relabel two_items)) block 2 (0, 0, 0) cleared).
Proof.
  assert (Forall leaf_nonzero (counted two_items)) as Hnz.
  { repeat constructor; discriminate. }
  split; [exact Hnz |].
  apply (C3_schemas_agree_up_to_axis_letters two_items block 2 (0, 0, 0)
           cleared Hnz).
Defined.

(** C3 as stated fails: with the same axis letter in both schemas the
    second item is placed at different origins. *)
Lemma C3_same_letters_differ :
  exists b,
    In b (placed (drawTree (legacy two_items) block 2 (0, 0, 0) cleared))
    /\ ~ In b (placed (drawTreeNew (current two_items) block 2 (0, 0, 0) cleared)).
Proof.
  eexists. split.
  - vm_compute. right. left. reflexivity.
  - vm_compute. intros [H | [H | []]]; discriminate H.
Qed.

End ReconstructionClaims.

Section VolumeClaims.
Import Tree Scene Draw Stats Spec Samples.

Implicit Types (w : World) (o dims : Vec3) (t : CutNode).

Lemma sizeNew_positive dims l wd h :
  0 < l -> 0 < wd -> 0 < h -> sizeNew dims l wd h = (l, wd, h).
Proof. intros. apply sizeNew_nonzero; lia. Qed.

Lemma totalFilled_current t cat dims :
  totalFilled (calculateStatisticsNew (Some (current t)) cat dims)
  = sum_leaf_volumes (counted t).
Proof.
  destruct dims as [[bL bW] bH]. cbn -[countItems].
  destruct (countItems_current t (mkAcc ∅ 0) EmptyString) as (-> & _).
  reflexivity.
Qed.

Lemma totalFilled_legacy t cat dims :
  totalFilled (calculateStatisticsNew (Some (legacy t)) cat dims)
  = sum_leaf_volumes (counted t).
Proof.
  destruct dims as [[bL bW] bH]. cbn -[countItems].
  destruct (countItems_legacy t (mkAcc ∅ 0) EmptyString) as (-> & _).
  reflexivity.
Qed.

(** C2, as the code has it.  For a tree whose leaves with a truthy id
    all have positive sides, drawn in a world with a scene, the volumes
    of the boxes put on display add up to [totalFilled] of the
    statistics of the same tree, in the current schema and in the
    legacy schema. *)
Theorem C2_volume_conservation : forall t cat dims k o w,
  initialised w ->
  Forall leaf_positive (counted t) ->
  sum_volumes (placed (drawTreeNew (current t) dims k o w))
  = sum_volumes (placed w)
    + totalFilled (calculateStatisticsNew (Some (current t)) cat dims)
  /\ sum_volumes (placed (drawTree (legacy t) dims k o w))
     = sum_volumes (placed w)
       + totalFilled (calculateStatisticsNew (Some (legacy t)) cat dims).
Proof.
  intros t cat dims k o w Hw Hpos. split.
  - rewrite totalFilled_current.
    apply (render_volume (fun t o w => drawTreeNew (current t) dims k o w)
             (sizeNew dims) (fun a => a) k).
    + intros. apply drawTreeNew_leaf.
    + intros. apply drawTreeNew_cut.
    + intros. now apply sizeNew_positive.
    + exact Hw.
    + exact Hpos.
  - rewrite totalFilled_legacy.
    apply (render_volume (fun t o w => drawTree (legacy t) dims k o w)
             (fun l wd h => (l, wd, h)) legacy_axis k).
    + intros. apply drawTree_leaf.
    + intros. apply drawTree_cut.
    + reflexivity.
    + exact Hw.
    + exact Hpos.
Qed.

Lemma C2_volume_conservation_witness :
  initialised cleared
  /\ Forall leaf_positive (counted two_items)
  /\ sum_volumes (placed (drawTreeNew (current two_items) block 2 (0, 0, 0) cleared))
     = sum_volumes (placed cleared)
       + totalFilled (calculateStatisticsNew (Some (current two_items)) catalogue block).
Proof.
  assert (initialised cleared) as Hw by discriminate.
  assert (Forall leaf_positive (counted two_items)) as Hpos.
  { repeat constructor. }
  split; [exact Hw |]. split; [exact Hpos |].
  apply (proj1 (C2_volume_conservation two_items catalogue block 2 (0, 0, 0)
                  cleared Hw Hpos)).
Defined.

(** C2 as stated fails when a side is negative: [addBox] refuses the
    box, the statistics still multiply the sides. *)
Lemma C2_negative_side_breaks_conservation :
  sum_volumes (placed (drawTreeNew (current negative_leaf) block 2 (0, 0, 0) cleared))
  = 0
  /\ totalFilled (calculateStatisticsNew (Some (current negative_leaf)) catalogue block)
     = -24
  /\ sum_volumes (placed (drawTreeNew (current negative_leaf) block 2 (0, 0, 0) cleared))
     <> totalFilled (calculateStatisticsNew (Some (current negative_leaf)) catalogue block).
Proof. repeat split; vm_compute; congruence. Qed.

(** A leaf with a negative side, in either schema, and a legacy leaf
    with a side that is 0, put nothing on display. *)
Lemma negative_leaf_dropped i l wd h dims k o w :
  l < 0 \/ wd < 0 \/ h < 0 ->
  placed (drawTreeNew (current (Leaf i l wd h)) dims k o w) = placed w.
Proof.
  intros Hneg. rewrite drawTreeNew_leaf.
  destruct (Js.truthy_id i); [| reflexivity].
  destruct dims as [[bL bW] bH]. unfold sizeNew.
  assert (forall n b, n < 0 -> Js.num_or (Some n) b = n) as Hnum.
  { intros n b Hn. apply num_or_nonzero. lia. }
  assert (Js.num_or (Some l) bL <= 0 \/ Js.num_or (Some wd) bW <= 0
          \/ Js.num_or (Some h) bH <= 0) as Hdim.
  { destruct Hneg as [H | [H | H]]; [left | right; left | right; right];
      rewrite (Hnum _ _ H); lia. }
  unfold placed. now rewrite (proj1 (drawLeaf_dropped i o _ _ _ w Hdim)).
Qed.

Lemma legacy_degenerate_leaf_dropped i l wd h dims k o w :
  l <= 0 \/ wd <= 0 \/ h <= 0 ->
  placed (drawTree (legacy (Leaf i l wd h)) dims k o w) = placed w.
Proof.
  intros Hdeg. rewrite drawTree_leaf.
  destruct (Js.truthy_id i); [| reflexivity].
  unfold placed. now rewrite (proj1 (drawLeaf_dropped i o l wd h w Hdeg)).
Qed.

(** C6 at the failing input: the current-schema leaf of length 0 is
    drawn, with the length of the block in place of its own. *)
Theorem C6_zero_length_leaf_is_drawn :
  List.map size_of (placed (drawTreeNew flat_leaf (10, 10, 10) 2 (0, 0, 0) cleared))
  = [(10, 5, 5)].
Proof. vm_compute. reflexivity. Qed.

(** C10.  A node whose [item_id] is falsy and whose [cut_dir] is falsy
    or absent is no leaf: [drawTreeNew] leaves the world as it is, and
    neither leaf test of [countItems] records anything; a node of this
    kind without children leaves the tally as it is. *)
Theorem C10_falsy_item_id_is_no_leaf :
  forall (n : node) dims k o w acc,
    Js.truthy Js.truthy_id (item_id n) = false ->
    Js.truthy Js.truthy_str (cut_dir n) = false ->
    drawTreeNew n dims k o w = w
    /\ countNew n acc = acc
    /\ countLegacy n acc = acc
    /\ (left_pattern n = None -> right_pattern n = None ->
        children n = None -> countItems n acc = acc).
Proof.
  intros n dims k o w acc Hid Hcut.
  assert (countNew n acc = acc /\ countLegacy n acc = acc) as [HN HL].
  { unfold countNew, countLegacy.
    destruct (item_id n) as [i |]; [| auto]. cbn in Hid. rewrite Hid.
    rewrite andb_false_r. auto. }
  repeat split; try assumption.
  - destruct n, dims as [[bL bW] bH]. cbn in *. rewrite Hid, Hcut. reflexivity.
  - intros Hl Hr Hc. destruct n. cbn in Hl, Hr, Hc. subst.
    cbn [countItems left_pattern right_pattern children].
    now rewrite HN, HL.
Qed.

Lemma C10_falsy_item_id_witness :
  drawTreeNew (current zero_id_leaf) block 2 (0, 0, 0) cleared = cleared
  /\ countItems (current zero_id_leaf) (mkAcc ∅ 0) = mkAcc ∅ 0.
Proof.
  destruct (C10_falsy_item_id_is_no_leaf (current zero_id_leaf) block 2
              (0, 0, 0) cleared (mkAcc ∅ 0) eq_refl eq_refl)
    as (Hd & _ & _ & Hc).
  split; [exact Hd | exact (Hc eq_refl eq_refl eq_refl)].
Defined.

End VolumeClaims.

(** ** Statistics: the tally, the totals, the producer's counts *)

Section StatisticsClaims.
Import Tree Stats Spec Samples.

Implicit Types (t : CutNode) (k : string).

Lemma items_current t cat dims :
  items (calculateStatisticsNew (Some (current t)) cat dims)
  = acc_items (countItems (current t) (mkAcc ∅ 0)).
Proof. destruct dims as [[bL bW] bH]. reflexivity. Qed.

Lemma items_legacy t cat dims :
  items (calculateStatisticsNew (Some (legacy t)) cat dims)
  = acc_items (countItems (legacy t) (mkAcc ∅ 0))
  /\ totalFilled (calculateStatisticsNew (Some (legacy t)) cat dims)
     = acc_totalFilled (countItems (legacy t) (mkAcc ∅ 0)).
Proof. destruct dims as [[bL bW] bH]. split; reflexivity. Qed.

(** C4, as the code has it.  In a current-schema tree every leaf with a
    truthy id adds 1 to the count and its [length * width * height] to
    the volume on record under its id, and [totalFilled] is the sum of
    the volumes of these leaves; a leaf with a falsy id is not counted.
    In a legacy tree the volumes and [totalFilled] are the same. *)
Theorem C4_fallback_tally : forall t cat dims k,
  (count_at k (items (calculateStatisticsNew (Some (current t)) cat dims))
   = Z.of_nat (List.length (counted_at k t))
   /\ volume_at k (items (calculateStatisticsNew (Some (current t)) cat dims))
      = sum_leaf_volumes (counted_at k t)
   /\ totalFilled (calculateStatisticsNew (Some (current t)) cat dims)
      = sum_leaf_volumes (counted t))
  /\ (volume_at k (items (calculateStatisticsNew (Some (legacy t)) cat dims))
      = sum_leaf_volumes (counted_at k t)
      /\ totalFilled (calculateStatisticsNew (Some (legacy t)) cat dims)
         = sum_leaf_volumes (counted t)).
Proof.
  intros t cat dims k. split.
  - rewrite items_current, totalFilled_current.
    destruct (countItems_current t (mkAcc ∅ 0) k) as (_ & -> & ->).
    unfold count_at, volume_at. cbn. rewrite lookup_empty. auto.
  - destruct (items_legacy t cat dims) as [-> ->].
    destruct (countItems_legacy t (mkAcc ∅ 0) k) as (-> & _ & ->).
    unfold volume_at. cbn. rewrite lookup_empty. auto.
Qed.

(** C4 as stated fails on a leaf whose id is the number 0: nothing is
    counted for it and its volume is not in [totalFilled]. *)
Lemma C4_zero_id_leaf_not_counted :
  leaves zero_id_leaf = [(Js.IdNum 0, 1, 2, 3)]
  /\ count_at "0" (items (calculateStatisticsNew (Some (current zero_id_leaf)) catalogue block))
     <> 1
  /\ totalFilled (calculateStatisticsNew (Some (current zero_id_leaf)) catalogue block)
     <> sum_leaf_volumes (leaves zero_id_leaf).
Proof. repeat split; vm_compute; congruence. Qed.

(** The count of a legacy leaf: both leaf tests of [countItems] fire. *)
Lemma legacy_leaf_counted_twice :
  count_at "A" (items (calculateStatisticsNew (Some legacy_leaf) catalogue block)) = 2
  /\ volume_at "A" (items (calculateStatisticsNew (Some legacy_leaf) catalogue block)) = 6.
Proof. split; vm_compute; reflexivity. Qed.

Lemma legacy_counts_doubled t cat dims k :
  count_at k (items (calculateStatisticsNew (Some (legacy t)) cat dims))
  = 2 * Z.of_nat (List.length (counted_at k t)).
Proof.
  destruct (items_legacy t cat dims) as [-> _].
  destruct (countItems_legacy t (mkAcc ∅ 0) k) as (_ & -> & _).
  unfold count_at. cbn. now rewrite lookup_empty.
Qed.

(** The exact quotients: [x / y * 100] is [100 * x / y], and the share of
    the rest is what is left of 100. *)
Lemma percent_spec x y :
  0 < y ->
  (percent x y == 100 * inject_Z x / inject_Z y)%Q
  /\ (percent (y - x) y == 100 - percent x y)%Q.
Proof.
  intros Hy. unfold percent.
  assert (~ (inject_Z y == 0)%Q) as Hy0.
  { change 0%Q with (inject_Z 0). rewrite inject_Z_injective. lia. }
  split.
  - field. exact Hy0.
  - unfold Z.sub. rewrite inject_Z_plus, inject_Z_opp. field. exact Hy0.
Qed.




End StatisticsClaims.

Section Keys.
Import Spec.

(** The text of an integer reads back as that integer. *)
Lemma decimal_String (n : Z) : decimal (Js.String_of_num n) = Some n.
Proof.
  unfold decimal, Js.String_of_num. rewrite NilZero.isi.
  - cbn. now rewrite DecimalZ.of_to.
  - destruct n; cbn; try discriminate.
    intros [= H]. now apply DecimalPos.Unsigned.to_uint_nonnil in H.
  - destruct n; cbn; try discriminate.
    intros [= H]. now apply DecimalPos.Unsigned.to_uint_nonnil in H.
Qed.

(** Two integers with the same text are the same: as property keys,
    distinct numbers stay distinct. *)
Lemma String_of_num_inj (m n : Z) :
  Js.String_of_num m = Js.String_of_num n -> m = n.
Proof.
  intros H. pose proof (decimal_String m) as Hm. rewrite H, decimal_String in Hm.
  now injection Hm.
Qed.

End Keys.

Section ProducerCounts.
Import Tree Stats Spec Samples.

Variable toNumber : string -> option Z.

(** The text of an integer converts back to that integer. *)
Hypothesis toNumber_String : forall n : Z,
  toNumber (Js.String_of_num n) = Some n.

Lemma loose_eq_String (m n : Z) :
  loose_eq toNumber m (Js.String_of_num n) = (m =? n).
Proof. unfold loose_eq. now rewrite toNumber_String. Qed.

Lemma find_by_key cat (n : Z) :
  List.find (fun it => loose_eq toNumber (id it) (Js.String_of_num n)) cat
  = List.find (fun it => id it =? n) cat.
Proof.
  induction cat as [| it cat IH]; cbn; [reflexivity |].
  rewrite loose_eq_String. destruct (id it =? n); [reflexivity | exact IH].
Qed.

(** What the loop leaves under a key it does not visit, and under one
    it visits. *)
Lemma addCount_other cat (es : list (string * Z)) :
  forall (m : gmap string ItemStat) k,
    k ∉ es.*1 ->
    fold_left (addCount toNumber cat) es m !! k = m !! k.
Proof.
  induction es as [| [k' c'] es IH]; intros m k Hk; cbn; [reflexivity |].
  cbn in Hk. apply not_elem_of_cons in Hk as [Hne Hk].
  rewrite IH by assumption. now apply lookup_insert_ne.
Qed.

Lemma addCount_visited cat (es : list (string * Z)) :
  forall (m : gmap string ItemStat) k c,
    NoDup (es.*1) ->
    (k, c) ∈ es ->
    exists vol,
      fold_left (addCount toNumber cat) es m !! k
      = Some (mkItemStat (Js.IdStr k) c (vol * c))
      /\ vol = match List.find (fun it => loose_eq toNumber (id it) k) cat with
               | Some it => l it * w it * h it
               | None => 0
               end.
Proof.
  induction es as [| [k' c'] es IH]; intros m k c Hnd Hin.
  - inversion Hin.
  - cbn in Hnd. apply NoDup_cons in Hnd as [Hfresh Hnd].
    apply elem_of_cons in Hin as [Heq | Hin].
    + injection Heq as -> ->. eexists. split; [| reflexivity].
      cbn [fold_left addCount]. rewrite addCount_other by assumption.
      apply lookup_insert_eq.
    + cbn [fold_left]. now apply IH.
Qed.

(** An entry of the statistics is filed under the key that it carries
    as its [id]. *)
Lemma entry_carries_its_key cat bL bW bH result k e :
  items (handlerStats toNumber bL bW bH cat result) !! k = Some e ->
  stat_id e = Js.IdStr k.
Proof.
  unfold handlerStats. cbn [items].
  destruct (item_counts result) as [counts |]; [| now rewrite lookup_empty].
  destruct (counts !! k) as [c |] eqn:Hk.
  - destruct (addCount_visited cat (map_to_list counts) ∅ k c)
      as (vol & -> & _).
    + apply NoDup_fst_map_to_list.
    + now apply elem_of_map_to_list.
    + now intros [= <-].
  - rewrite addCount_other, lookup_empty; [discriminate |].
    intros Hin. apply list_elem_of_fmap in Hin as ([k' c'] & -> & Hin).
    apply elem_of_map_to_list in Hin. cbn in Hk. congruence.
Qed.

(** C7.  For a key of [item_counts] that is the text of a catalogue
    id, the entry of the statistics holds the producer's count and the
    volume [l * w * h] of the catalogue item (the first with that id)
    times the count; nothing is taken from the placements.  The key as a
    string and the id as a number meet: the catalogue item is found by
    its number, a look-up by that number finds this entry, and a look-up
    by any other number does not. *)
Theorem C7_declared_volume_times_count :
  forall cat result counts (n c : Z) it (bL bW bH : Z),
    item_counts result = Some counts ->
    counts !! Js.String_of_num n = Some c ->
    List.find (fun it => id it =? n) cat = Some it ->
    let stats := handlerStats toNumber bL bW bH cat result in
    let entry := mkItemStat (Js.IdStr (Js.String_of_num n)) c
                            (l it * w it * h it * c) in
    items stats !! Js.String_of_num n = Some entry
    /\ lookup_num (items stats) n = Some entry
    /\ (forall m : Z, lookup_num (items stats) m = Some entry -> m = n).
Proof.
  intros cat result counts n c it bL bW bH Hcounts Hc Hit stats entry.
  assert (items stats !! Js.String_of_num n = Some entry) as Hentry.
  { subst stats entry. unfold handlerStats. cbn [items]. rewrite Hcounts.
    destruct (addCount_visited cat (map_to_list counts) ∅
                (Js.String_of_num n) c)
      as (vol & -> & ->).
    - apply NoDup_fst_map_to_list.
    - now apply elem_of_map_to_list.
    - now rewrite find_by_key, Hit. }
  split; [exact Hentry |]. split; [exact Hentry |].
  intros m Hm. unfold lookup_num in Hm. cbn [Js.key Js.String] in Hm.
  apply entry_carries_its_key in Hm. subst entry. cbn in Hm.
  injection Hm as Hm. symmetry. now apply String_of_num_inj.
Qed.

End ProducerCounts.

Section ProducerCountsWitness.
Import Tree Stats Spec Samples.

(** The end-to-end example: two of item 1, declared 100 x 50 x 30. *)
Lemma C7_declared_volume_witness :
  (forall n : Z, decimal (Js.String_of_num n) = Some n)
  /\ item_counts two_placed = Some {[ "1" := 2 ]}
  /\ ({[ "1" := 2 ]} : gmap string Z) !! Js.String_of_num 1 = Some 2
  /\ List.find (fun it => id it =? 1) catalogue = Some (mkItem 1 100 50 30 2)
  /\ items (handlerStats decimal 200 100 60 catalogue two_placed) !! "1"
     = Some (mkItemStat (Js.IdStr "1") 2 300000)
  /\ lookup_num (items (handlerStats decimal 200 100 60 catalogue two_placed)) 1
     = Some (mkItemStat (Js.IdStr "1") 2 300000)
  /\ (forall m : Z,
        lookup_num (items (handlerStats decimal 200 100 60 catalogue two_placed)) m
        = Some (mkItemStat (Js.IdStr "1") 2 300000) ->
        m = 1).
Proof.
  split; [exact decimal_String |].
  split; [reflexivity |]. split; [reflexivity |]. split; [reflexivity |].
  exact (C7_declared_volume_times_count decimal decimal_String
           catalogue two_placed {[ "1" := 2 ]} 1 2
           (mkItem 1 100 50 30 2) 200 100 60
           eq_refl eq_refl eq_refl).
Defined.

End ProducerCountsWitness.

(** ** The cutting program *)

Section ProgramClaims.
Import Program Spec Samples.


Lemma conflict_lines_app (xs ys : list Html) :
  conflict_lines (xs ++ ys) = conflict_lines xs ++ conflict_lines ys.
Proof.
  induction xs as [| x xs IH]; cbn; [reflexivity |].
  destruct x; cbn; now rewrite ?IH.
Qed.

Lemma says_no_conflicts_app (xs ys : list Html) :
  says_no_conflicts (xs ++ ys)
  = says_no_conflicts xs || says_no_conflicts ys.
Proof.
  induction xs as [| x xs IH]; cbn; [reflexivity |].
  destruct x; cbn; now rewrite ?IH.
Qed.

Lemma renderStep_shown index step :
  exists bg oc ic vol,
    renderStep index step
    = TableRow bg oc ic (Js.String_of_num (seq step)) (operation step)
        (String.append (indent_of (default O (depth (node step))))
                       (description step))
        vol.
Proof.
  unfold renderStep.
  destruct (if String.eqb (operation step) "START" then _ else _) as [oc ic].
  eauto.
Qed.

(** The rows of the table: one per step, in order, nothing else. *)
Lemma rows_steps (steps : list Step) : forall f : nat -> Step -> Html,
  (forall i step, exists bg oc ic vol,
      f i step
      = TableRow bg oc ic (Js.String_of_num (seq step)) (operation step)
          (String.append (indent_of (default O (depth (node step))))
                         (description step))
          vol) ->
  rows (imap f steps) = List.map shown steps
  /\ conflict_lines (imap f steps) = []
  /\ says_no_conflicts (imap f steps) = false.
Proof.
  induction steps as [| step steps IH]; intros f Hf; cbn; [auto |].
  destruct (Hf O step) as (bg & oc & ic & vol & ->). cbn.
  destruct (IH (f ∘ S)) as (-> & -> & ->); [| auto].
  intros i step'. apply Hf.
Qed.

(** The lines of the conflict box: one per conflict, in order. *)
Lemma rows_conflicts (cs : list Conflict) :
  rows (List.map (fun c => ConflictLine (conflict_description c)) cs) = []
  /\ conflict_lines (List.map (fun c => ConflictLine (conflict_description c)) cs)
     = List.map conflict_description cs
  /\ says_no_conflicts
       (List.map (fun c => ConflictLine (conflict_description c)) cs)
     = false.
Proof.
  induction cs as [| c cs (IH1 & IH2 & IH3)]; cbn; [auto |].
  rewrite IH1, IH2, IH3. auto.
Qed.











End ProgramClaims.

(** ** Colours in the two views *)

Section ColourClaims.
Import Scene Stats Views Spec Samples.

(** Both colour functions hash the text of the id alike: called with
    the same index they ask for the same colour. *)
Lemma same_index_same_colour (itemId : Js.id) (index : nat) :
  Color.getItemColor (Js.IdStr (Js.String itemId)) index
  = Color.getItemColorHex itemId index.
Proof. reflexivity. Qed.

(** The index is taken modulo the ten hues. *)
Lemma colour_index_mod_10 (itemId : Js.id) (index : nat) :
  Color.getItemColorHex itemId (index + 10) = Color.getItemColorHex itemId index.
Proof.
  unfold Color.getItemColorHex, Color.of_hash.
  change (List.length Color.hues) with 10%nat.
  replace ((index + 10) mod 10)%nat with (index mod 10)%nat; [reflexivity |].
  rewrite <- (Nat.Div0.add_mod_idemp_r index 10 10).
  now rewrite Nat.Div0.mod_same, Nat.add_0_r.
Qed.

(** C9 at the failing input: the catalogue lists items 1 and 2 and the
    response places item 2 only.  The 3D loop gives item 2 the index 0,
    the first it meets, and the table gives it the index 1, its line in
    the catalogue: base hue 0 in the one view, 30 in the other. *)
Theorem C9_views_colour_item_differently :
  let w := renderItems cleared only_second in
  let stats := handlerStats decimal 40 40 40 catalogue only_second in
  let table := updateStatsTable catalogue stats 40 40 40 in
  color3D w (Js.IdNum 2) = Some (Color.mkHSL 0 85 55)
  /\ colorTable table 2 = Some (Color.mkHSL 30 85 55)
  /\ color3D w (Js.IdNum 2) <> colorTable table 2.
Proof.
  assert (color3D (renderItems cleared only_second) (Js.IdNum 2)
          = Some (Color.mkHSL 0 85 55)) as H3D by (vm_compute; reflexivity).
  assert (colorTable
            (updateStatsTable catalogue
               (handlerStats decimal 40 40 40 catalogue only_second)
               40 40 40) 2
          = Some (Color.mkHSL 30 85 55)) as HT by (vm_compute; reflexivity).
  cbv zeta. rewrite H3D, HT. repeat split. discriminate.
Qed.

End ColourClaims.

(** * Further properties *)

(** ** Induction on raw nodes *)

Section RawNodes.
Import Tree.

Lemma node_induction (P : node -> Prop) :
  (forall n,
      (forall lt, left_pattern n = Some lt -> P lt) ->
      (forall rt, right_pattern n = Some rt -> P rt) ->
      (forall cs, children n = Some cs -> Forall P cs) ->
      P n) ->
  forall n, P n.
Proof.
  intros Hstep. fix IH 1. intros n. apply Hstep.
  - destruct n as [? ? ? ? ? ? lp ? ? ? ? ? ?]. cbn. intros lt Hlt.
    destruct lp as [l0 |]; [| discriminate]. injection Hlt as <-. apply IH.
  - destruct n as [? ? ? ? ? ? ? rp ? ? ? ? ?]. cbn. intros rt Hrt.
    destruct rp as [r0 |]; [| discriminate]. injection Hrt as <-. apply IH.
  - destruct n as [? ? ? ? ? ? ? ? ? ? ? ? ch]. cbn. intros cs Hcs.
    destruct ch as [cs0 |]; [| discriminate]. injection Hcs as <-.
    induction cs0 as [| c cs0 IHcs]; constructor; [apply IH | exact IHcs].
Qed.

End RawNodes.

(** ** Every run of a renderer is a sequence of leaf calls *)

Section Runs.
Import Tree Scene Draw.

Variable R : World -> World -> Prop.

Hypothesis R_refl : forall w, R w w.
Hypothesis R_trans : forall w1 w2 w3, R w1 w2 -> R w2 w3 -> R w1 w3.
Hypothesis R_leaf : forall itemId o L W H w, R w (drawLeaf itemId o L W H w).

Lemma drawTreeNew_run : forall n dims k o w, R w (drawTreeNew n dims k o w).
Proof.
  induction n as [n IHl IHr _] using node_induction. intros dims k o w.
  destruct n as [iid len wid hei cd cp lp rp kd bx ax ps ch].
  destruct dims as [[bL bW] bH].
  cbn [drawTreeNew item_id length width height cut_dir cut_pos left_pattern
       right_pattern].
  cbn [left_pattern right_pattern] in IHl, IHr.
  destruct (Js.truthy Js.truthy_id iid && negb (Js.truthy Js.truthy_str cd)).
  - destruct iid; [apply R_leaf | apply R_refl].
  - destruct (Js.truthy Js.truthy_str cd && (Js.defined lp || Js.defined rp));
      [| apply R_refl].
    destruct lp as [lt |], rp as [rt |]; try apply R_refl.
    + eapply R_trans; [apply (IHl lt eq_refl) | apply (IHr rt eq_refl)].
    + apply (IHl lt eq_refl).
    + apply (IHr rt eq_refl).
Qed.

Lemma drawTree_run : forall n dims k o w, R w (drawTree n dims k o w).
Proof.
  induction n as [n _ _ IHc] using node_induction. intros dims k o w.
  destruct n as [iid len wid hei cd cp lp rp kd bx ax ps ch].
  cbn [drawTree item_id length cut_dir kind box axis pos children].
  cbn [children] in IHc.
  destruct (Js.defined len || Js.defined cd); [apply drawTreeNew_run |].
  destruct (default dims bx) as [[L W] H].
  destruct (Js.str_is kd "leaf" && Js.truthy Js.truthy_id iid).
  - destruct iid; [apply R_leaf | apply R_refl].
  - destruct ch as [[| c0 [| c1 cs]] |]; try apply R_refl.
    specialize (IHc _ eq_refl).
    apply Forall_cons in IHc as [H0 IHc]. apply Forall_cons in IHc as [H1 _].
    destruct (Js.str_is kd "cut"); [| apply R_refl].
    destruct o as [[x y] z].
    destruct (Js.str_is ax "H");
      [eapply R_trans; [apply H0 | apply H1] |].
    destruct (Js.str_is ax "V");
      [eapply R_trans; [apply H0 | apply H1] |].
    destruct (Js.str_is ax "D");
      [eapply R_trans; [apply H0 | apply H1] | apply R_refl].
Qed.

End Runs.

(** ** What one leaf call does *)

Section LeafCall.
Import Tree Scene Draw Spec Further.

Implicit Types (w : World) (o : Vec3).

Lemma colorFor_spec itemId w :
  itemColorMap (snd (colorFor itemId w)) !! Js.key itemId
  = Some (fst (colorFor itemId w))
  /\ itemColorMap w ⊆ itemColorMap (snd (colorFor itemId w))
  /\ itemMeshes (snd (colorFor itemId w)) = itemMeshes w
  /\ itemLabels (snd (colorFor itemId w)) = itemLabels w
  /\ currentOpacity (snd (colorFor itemId w)) = currentOpacity w
  /\ scene (snd (colorFor itemId w)) = scene w.
Proof.
  unfold colorFor.
  destruct (itemColorMap w !! Js.key itemId) as [c |] eqn:Hc; cbn.
  - repeat split; auto.
  - rewrite lookup_insert_eq. repeat split. now apply insert_subseteq.
Qed.

(** The call leaves the display as it is, or adds one box to it. *)
Lemma drawLeaf_spec itemId o L W H w :
  let cw := colorFor itemId w in
  let w' := drawLeaf itemId o L W H w in
  itemColorMap w' = itemColorMap (snd cw)
  /\ itemIndexMap w' = itemIndexMap (snd cw)
  /\ itemLabels w' = itemLabels w
  /\ currentOpacity w' = currentOpacity w
  /\ Js.defined (scene w') = Js.defined (scene w)
  /\ ((itemMeshes w' = itemMeshes w
       /\ (scene w = None \/ L <= 0 \/ W <= 0 \/ H <= 0))
      \/ exists b,
           itemMeshes w' = itemMeshes w ++ [Mesh b; LineSegments b]
           /\ origin_of b = o /\ size_of b = (L, W, H)
           /\ item_box b
           /\ box_color b = fst cw
           /\ box_itemId b = (if Js.truthy_id itemId then Some itemId else None)
           /\ initialised w).
Proof.
  intros cw w'. subst cw w'. unfold drawLeaf.
  destruct (colorFor_spec itemId w) as (_ & _ & Hm & Hl & Hop & Hs).
  destruct (colorFor itemId w) as [col w1]. cbn [fst snd] in *.
  destruct o as [[x y] z]. unfold addBox. rewrite Hs.
  destruct (scene w) as [objs |] eqn:Hsw.
  - destruct ((L <=? 0) || (W <=? 0) || (H <=? 0)) eqn:Hdim; cbn.
    + rewrite Hs. repeat split; auto. left. split; [assumption |].
      right. rewrite !orb_true_iff, !Z.leb_le in Hdim. tauto.
    + repeat split; auto. right. eexists. split; [now rewrite Hm |].
      rewrite !orb_false_iff, !Z.leb_gt in Hdim.
      unfold item_box, origin_of, size_of, initialised. cbn.
      repeat split; try tauto. rewrite Hsw. discriminate.
  - cbn. rewrite Hs. repeat split; auto.
Qed.

Lemma placed_unchanged w w' : itemMeshes w' = itemMeshes w -> placed w' = placed w.
Proof. unfold placed. now intros ->. Qed.

Lemma placed_added w w' b :
  itemMeshes w' = itemMeshes w ++ [Mesh b; LineSegments b] ->
  placed w' = placed w ++ [b].
Proof. unfold placed. intros ->. now rewrite placements_app. Qed.

Lemma drawLeaf_item_boxes itemId o L W H w :
  Forall item_box (placed w) -> Forall item_box (placed (drawLeaf itemId o L W H w)).
Proof.
  intros Hall.
  destruct (drawLeaf_spec itemId o L W H w)
    as (_ & _ & _ & _ & _ & [[Hm _] | (b & Hm & _ & _ & Hb & _)]).
  - now rewrite (placed_unchanged _ _ Hm).
  - rewrite (placed_added _ _ _ Hm). apply Forall_app. split; [assumption |].
    now constructor.
Qed.

Lemma drawLeaf_without_scene itemId o L W H w :
  scene w = None ->
  scene (drawLeaf itemId o L W H w) = None
  /\ itemMeshes (drawLeaf itemId o L W H w) = itemMeshes w.
Proof.
  intros Hs.
  destruct (drawLeaf_spec itemId o L W H w)
    as (_ & _ & _ & _ & Hd & [[Hm _] | (b & _ & _ & _ & _ & _ & _ & Hi)]).
  - split; [| assumption]. rewrite Hs in Hd.
    now destruct (scene (drawLeaf itemId o L W H w)).
  - now destruct Hi.
Qed.

Lemma drawLeaf_extends itemId o L W H w :
  extends w (drawLeaf itemId o L W H w).
Proof.
  destruct (drawLeaf_spec itemId o L W H w) as (Hc & _ & Hl & Hop & Hd & Hm).
  destruct (colorFor_spec itemId w) as (_ & Hsub & _).
  unfold extends. rewrite Hc. repeat split; try assumption.
  destruct Hm as [[Hm _] | (b & Hm & _)].
  - exists []. now rewrite app_nil_r.
  - eauto.
Qed.

Lemma drawLeaf_coloured itemId o L W H w :
  coloured w -> coloured (drawLeaf itemId o L W H w).
Proof.
  intros Hcol b i Hin Hid.
  destruct (drawLeaf_spec itemId o L W H w)
    as (Hc & _ & _ & _ & _ & Hm).
  destruct (colorFor_spec itemId w) as (Hkey & Hsub & _).
  rewrite Hc.
  assert (forall b, In b (placed w) -> box_itemId b = Some i ->
                    itemColorMap (snd (colorFor itemId w)) !! Js.key i
                    = Some (box_color b)) as Hold.
  { intros b0 Hb0 Hi0. eapply lookup_weaken; [apply (Hcol b0 i Hb0 Hi0) | exact Hsub]. }
  destruct Hm as [[Hm _] | (b' & Hm & _ & _ & _ & Hcb & Hib & _)].
  - rewrite (placed_unchanged _ _ Hm) in Hin. now apply Hold.
  - rewrite (placed_added _ _ _ Hm) in Hin. apply in_app_or in Hin as [Hin | [<- | []]].
    + now apply Hold.
    + rewrite Hcb. rewrite Hib in Hid.
      destruct (Js.truthy_id itemId); [| discriminate]. now injection Hid as <-.
Qed.

Lemma drawLeaf_indexed itemId o L W H w :
  indexed w -> indexed (drawLeaf itemId o L W H w).
Proof.
  intros (Hkeys & Hlt & Hinj & Hget).
  destruct (drawLeaf_spec itemId o L W H w) as (Hc & Hi & _).
  unfold indexed. rewrite Hc, Hi. clear Hc Hi. unfold colorFor.
  destruct (itemColorMap w !! Js.key itemId) as [c |] eqn:Hk;
    cbn [fst snd]; unfold set_maps; cbn [itemColorMap itemIndexMap];
    [repeat split; auto; apply Hkeys |].
  assert (itemIndexMap w !! Js.key itemId = None) as Hk'.
  { apply eq_None_not_Some. rewrite <- Hkeys, Hk. now intros [? ?]. }
  rewrite (map_size_insert_None _ _ _ Hk).
  split; [| split; [| split]].
  - intros k. rewrite !lookup_insert_is_Some', Hkeys. tauto.
  - intros k i. rewrite lookup_insert.
    destruct (decide (Js.key itemId = k)) as [<- | Hne]; [intros [= <-]; lia |].
    intros Hik. apply Hlt in Hik. lia.
  - intros k k' i. rewrite !lookup_insert.
    destruct (decide (Js.key itemId = k)) as [<- | Hne],
             (decide (Js.key itemId = k')) as [<- | Hne'];
      try reflexivity.
    + intros [= <-] Hik. apply Hlt in Hik. lia.
    + intros Hik [= <-]. apply Hlt in Hik. lia.
    + apply Hinj.
  - intros k c. rewrite !lookup_insert.
    destruct (decide (Js.key itemId = k)) as [<- | Hne].
    + intros [= <-]. eauto.
    + apply Hget.
Qed.

End LeafCall.

(** ** The renderers on any tree *)

Section AnyTree.
Import Tree Scene Draw Spec Further Samples.

Implicit Types (w : World) (o dims : Vec3) (n : node).

Lemma extends_refl w : extends w w.
Proof.
  unfold extends. repeat split; try reflexivity.
  exists []. now rewrite app_nil_r.
Qed.

Lemma extends_trans w1 w2 w3 : extends w1 w2 -> extends w2 w3 -> extends w1 w3.
Proof.
  intros ([new1 Hm1] & Hl1 & Ho1 & Hs1 & Hc1) ([new2 Hm2] & Hl2 & Ho2 & Hs2 & Hc2).
  unfold extends. repeat split; try congruence.
  - exists (new1 ++ new2). now rewrite Hm2, Hm1, app_assoc.
  - now transitivity (itemColorMap w2).
Qed.

Lemma coloured_one_colour w : coloured w -> one_colour_per_item w.
Proof.
  intros Hcol b1 b2 i1 i2 Hin1 Hin2 Hid1 Hid2 Hkey.
  pose proof (Hcol b1 i1 Hin1 Hid1) as H1.
  pose proof (Hcol b2 i2 Hin2 Hid2) as H2.
  rewrite Hkey in H1. congruence.
Qed.

(** X1.  Whatever the tree, [drawTreeNew] and [drawTree] add to the
    display only boxes with three positive sides that are no
    sub-blocks. *)
Theorem renderers_add_item_boxes_only : forall n dims k o w,
  Forall item_box (placed w) ->
  Forall item_box (placed (drawTreeNew n dims k o w))
  /\ Forall item_box (placed (drawTree n dims k o w)).
Proof.
  intros n dims k o w Hw. split; revert Hw.
  - apply (drawTreeNew_run
             (fun w w' => Forall item_box (placed w) -> Forall item_box (placed w')));
      [auto | auto | intros; now apply drawLeaf_item_boxes].
  - apply (drawTree_run
             (fun w w' => Forall item_box (placed w) -> Forall item_box (placed w')));
      [auto | auto | intros; now apply drawLeaf_item_boxes].
Qed.

Lemma renderers_add_item_boxes_witness :
  Forall item_box (placed cleared)
  /\ Forall item_box (placed (drawTreeNew flat_leaf (10, 10, 10) 2 (0, 0, 0) cleared)).
Proof.
  assert (Forall item_box (placed cleared)) as Hw by constructor.
  split; [exact Hw |].
  exact (proj1 (renderers_add_item_boxes_only flat_leaf (10, 10, 10) 2
                  (0, 0, 0) cleared Hw)).
Defined.

(** X2.  Without a scene the renderers put nothing on display, whatever
    the tree. *)
Theorem renderers_need_a_scene : forall n dims k o w,
  scene w = None ->
  (scene (drawTreeNew n dims k o w) = None
   /\ itemMeshes (drawTreeNew n dims k o w) = itemMeshes w)
  /\ (scene (drawTree n dims k o w) = None
      /\ itemMeshes (drawTree n dims k o w) = itemMeshes w).
Proof.
  intros n dims k o w Hw.
  set (R := fun w w' : World =>
              scene w = None -> scene w' = None /\ itemMeshes w' = itemMeshes w).
  assert (forall w, R w w) as Hrefl by (unfold R; auto).
  assert (forall w1 w2 w3, R w1 w2 -> R w2 w3 -> R w1 w3) as Htrans.
  { unfold R. intros w1 w2 w3 H12 H23 H1.
    destruct (H12 H1) as [H2 Hm2]. destruct (H23 H2) as [H3 Hm3].
    split; congruence. }
  assert (forall itemId o L W H w, R w (drawLeaf itemId o L W H w)) as Hleaf.
  { unfold R. intros. now apply drawLeaf_without_scene. }
  split.
  - exact (drawTreeNew_run R Hrefl Htrans Hleaf n dims k o w Hw).
  - exact (drawTree_run R Hrefl Htrans Hleaf n dims k o w Hw).
Qed.

Lemma renderers_need_a_scene_witness :
  scene unready = None
  /\ itemMeshes (drawTreeNew (current two_items) block 2 (0, 0, 0) unready) = [].
Proof.
  split; [reflexivity |].
  exact (proj2 (proj1 (renderers_need_a_scene (current two_items) block 2
                         (0, 0, 0) unready eq_refl))).
Defined.

(** X3.  A run of a renderer only adds to the end of the display: what
    was on display stays, in place; the labels, the opacity setting and
    the presence of the scene are kept, and no colour on record is
    changed. *)
Theorem renderers_only_add : forall n dims k o w,
  extends w (drawTreeNew n dims k o w) /\ extends w (drawTree n dims k o w).
Proof.
  intros n dims k o w. split.
  - apply (drawTreeNew_run extends extends_refl extends_trans drawLeaf_extends).
  - apply (drawTree_run extends extends_refl extends_trans drawLeaf_extends).
Qed.

(** X4.  When every box on display has the colour on record for its
    item, this is so after a run of a renderer: boxes of one item have
    one colour, that of the colour dictionary. *)
Theorem renderers_keep_one_colour_per_item : forall n dims k o w,
  coloured w ->
  (coloured (drawTreeNew n dims k o w)
   /\ one_colour_per_item (drawTreeNew n dims k o w))
  /\ (coloured (drawTree n dims k o w)
      /\ one_colour_per_item (drawTree n dims k o w)).
Proof.
  intros n dims k o w Hw.
  assert (coloured (drawTreeNew n dims k o w)) as HN.
  { revert Hw. apply (drawTreeNew_run (fun w w' => coloured w -> coloured w'));
      [auto | auto | intros; now apply drawLeaf_coloured]. }
  assert (coloured (drawTree n dims k o w)) as HL.
  { revert Hw. apply (drawTree_run (fun w w' => coloured w -> coloured w'));
      [auto | auto | intros; now apply drawLeaf_coloured]. }
  auto using coloured_one_colour.
Qed.

Lemma coloured_cleared : coloured cleared.
Proof. intros b i []. Qed.

Lemma renderers_keep_one_colour_witness :
  coloured cleared
  /\ one_colour_per_item (drawTree (legacy two_items) block 2 (0, 0, 0) cleared).
Proof.
  split; [exact coloured_cleared |].
  exact (proj2 (proj2 (renderers_keep_one_colour_per_item (legacy two_items)
                         block 2 (0, 0, 0) cleared coloured_cleared))).
Defined.

Lemma indexed_empty w :
  itemColorMap w = ∅ -> itemIndexMap w = ∅ -> indexed w.
Proof.
  intros Hc Hi. unfold indexed. rewrite Hc, Hi.
  repeat split; intros *; rewrite ?lookup_empty; try discriminate;
    intros [? ?]; discriminate.
Qed.

(** X5.  The renderers keep the two colour dictionaries together: the
    same keys in both, the indices all different and below the number
    of keys, and each colour the one [getItemColor] gives at the index
    of its key. *)
Theorem renderers_keep_indices : forall n dims k o w,
  indexed w ->
  indexed (drawTreeNew n dims k o w) /\ indexed (drawTree n dims k o w).
Proof.
  intros n dims k o w Hw. split; revert Hw.
  - apply (drawTreeNew_run (fun w w' => indexed w -> indexed w'));
      [auto | auto | intros; now apply drawLeaf_indexed].
  - apply (drawTree_run (fun w w' => indexed w -> indexed w'));
      [auto | auto | intros; now apply drawLeaf_indexed].
Qed.

Lemma renderers_keep_indices_witness :
  indexed cleared
  /\ indexed (drawTreeNew (current two_items) block 2 (0, 0, 0) cleared).
Proof.
  assert (indexed cleared) as Hw by (apply indexed_empty; reflexivity).
  split; [exact Hw |].
  exact (proj1 (renderers_keep_indices (current two_items) block 2 (0, 0, 0)
                  cleared Hw)).
Defined.

End AnyTree.

(** ** The colour functions *)

Section ColourFacts.
Import Color.

Lemma base_hue_range (index : nat) :
  0 <= nth (index mod List.length hues) hues 0 <= 330.
Proof.
  change (List.length hues) with 10%nat.
  pose proof (Nat.mod_upper_bound index 10 ltac:(discriminate)) as Hlt.
  destruct (index mod 10)%nat as [| [| [| [| [| [| [| [| [| [| m]]]]]]]]]];
    cbn; lia.
Qed.

Lemma of_hash_range (index : nat) (hash : Z) :
  let c := of_hash index hash in
  -10 <= hue_deg c - nth (index mod List.length hues) hues 0 <= 9
  /\ -10 <= hue_deg c <= 339
  /\ 75 <= saturation c <= 94
  /\ 50 <= lightness c <= 64.
Proof.
  unfold of_hash. cbn [hue_deg saturation lightness].
  pose proof (base_hue_range index) as Hbase.
  pose proof (Z.rem_bound_pos (Z.abs hash) 20 (Z.abs_nonneg hash) ltac:(lia)).
  pose proof (Z.rem_bound_pos (Z.abs hash) 15 (Z.abs_nonneg hash) ltac:(lia)).
  lia.
Qed.

(** X6.  Whatever the id and the index, both colour functions stay
    within 10 degrees below and 9 above the base hue, so between -10 and
    339 degrees, with a saturation from 75 to 94 percent and a lightness
    from 50 to 64 percent. *)
Theorem colour_ranges : forall (itemId : Js.id) (index : nat),
  (let c := getItemColor itemId index in
   -10 <= hue_deg c - nth (index mod 10) hues 0 <= 9
   /\ -10 <= hue_deg c <= 339
   /\ 75 <= saturation c <= 94
   /\ 50 <= lightness c <= 64)
  /\ (let c := getItemColorHex itemId index in
      -10 <= hue_deg c - nth (index mod 10) hues 0 <= 9
      /\ -10 <= hue_deg c <= 339
      /\ 75 <= saturation c <= 94
      /\ 50 <= lightness c <= 64).
Proof.
  intros itemId index. split.
  - unfold getItemColor. apply of_hash_range.
  - unfold getItemColorHex. apply of_hash_range.
Qed.

Lemma of_hash_period (index : nat) (hash : Z) :
  of_hash (index + 10) hash = of_hash index hash.
Proof.
  unfold of_hash. change (List.length hues) with 10%nat.
  replace ((index + 10) mod 10)%nat with (index mod 10)%nat; [reflexivity |].
  rewrite <- (Nat.Div0.add_mod_idemp_r index 10 10).
  now rewrite Nat.Div0.mod_same, Nat.add_0_r.
Qed.

(** X7.  The palette has ten hues and wraps: the index and the index
    plus 10 give the same colour, so the eleventh item met is coloured
    like the first when their ids hash alike. *)
Theorem colour_palette_wraps : forall (itemId : Js.id) (index : nat),
  getItemColor itemId (index + 10) = getItemColor itemId index
  /\ getItemColorHex itemId (index + 10) = getItemColorHex itemId index.
Proof.
  intros itemId index. split.
  - unfold getItemColor. apply of_hash_period.
  - unfold getItemColorHex. apply of_hash_period.
Qed.

Lemma to_int32_small (n : Z) : - 2 ^ 31 <= n < 2 ^ 31 -> Js.to_int32 n = n.
Proof.
  intros Hn. unfold Js.to_int32. cbv zeta.
  destruct (Z_lt_le_dec n 0) as [Hneg | Hpos].
  - assert (n mod 2 ^ 32 = n + 2 ^ 32) as ->.
    { symmetry. apply (Z.mod_unique n (2 ^ 32) (-1)); lia. }
    destruct (Z.ltb_spec (n + 2 ^ 32) (2 ^ 31)); lia.
  - rewrite Z.mod_small by lia.
    destruct (Z.ltb_spec n (2 ^ 31)); lia.
Qed.

(** X8.  While the hash is below 2^26 in size, the shift does not wrap
    and a turn of the loop is [31 * hash + code]: the hash of a short id
    is the polynomial of its character codes in base 31. *)
Theorem hash_step_without_wrap : forall (hash : Z) (c : ascii),
  - 2 ^ 26 <= hash < 2 ^ 26 ->
  hash_step hash c = 31 * hash + Z.of_nat (nat_of_ascii c).
Proof.
  intros hash c Hh. unfold hash_step, Js.shl32.
  rewrite (to_int32_small hash) by lia.
  rewrite Z.shiftl_mul_pow2 by lia.
  rewrite to_int32_small by lia. lia.
Qed.

Lemma hash_step_without_wrap_witness :
  - 2 ^ 26 <= 49 < 2 ^ 26 /\ hash_step 49 "2" = 31 * 49 + 50.
Proof.
  assert (- 2 ^ 26 <= 49 < 2 ^ 26) as Hh by lia.
  split; [exact Hh |]. exact (hash_step_without_wrap 49 "2" Hh).
Defined.

End ColourFacts.

(** ** The tally on any tree *)

Section Tallies.
Import Tree Stats Spec Further.

Implicit Types (acc : Acc) (m : gmap string ItemStat).

Variable R : Acc -> Acc -> Prop.

Hypothesis R_refl : forall acc, R acc acc.
Hypothesis R_trans : forall a1 a2 a3, R a1 a2 -> R a2 a3 -> R a1 a3.
Hypothesis R_record : forall itemId vol acc,
  Js.truthy_id itemId = true -> R acc (record itemId vol acc).

(** Every tally is a sequence of records of ids that are truthy. *)
Lemma countItems_run : forall n acc, R acc (countItems n acc).
Proof.
  induction n as [n IHl IHr IHc] using node_induction. intros acc.
  destruct n as [iid len wid hei cd cp lp rp kd bx ax ps ch].
  cbn [countItems left_pattern right_pattern children].
  cbn [left_pattern right_pattern children] in IHl, IHr, IHc.
  set (n := Node iid len wid hei cd cp lp rp kd bx ax ps ch).
  assert (forall a, R a (countNew n a)) as HN.
  { intros a. unfold countNew. cbn. destruct iid as [i |]; [| apply R_refl].
    destruct (Js.truthy_id i) eqn:Hi; cbn; [| apply R_refl].
    destruct (negb (Js.truthy Js.truthy_str cd)); [| apply R_refl].
    now apply R_record. }
  assert (forall a, R a (countLegacy n a)) as HL.
  { intros a. unfold countLegacy. cbn. destruct iid as [i |]; [| apply R_refl].
    destruct (Js.str_is kd "leaf"); cbn; [| apply R_refl].
    destruct (Js.truthy_id i) eqn:Hi; [| apply R_refl].
    destruct (default (0, 0, 0) bx) as [[L W] H]. now apply R_record. }
  eapply R_trans; [apply HN |]. eapply R_trans; [apply HL |].
  generalize (countLegacy n (countNew n acc)). clear HN HL. intros a.
  eapply R_trans.
  { instantiate (1 := match lp with Some lt => countItems lt a | None => a end).
    destruct lp; [now apply IHl | apply R_refl]. }
  generalize (match lp with Some lt => countItems lt a | None => a end).
  clear a. intros a.
  eapply R_trans.
  { instantiate (1 := match rp with Some rt => countItems rt a | None => a end).
    destruct rp; [now apply IHr | apply R_refl]. }
  generalize (match rp with Some rt => countItems rt a | None => a end).
  clear a. intros a.
  destruct ch as [cs |]; [| apply R_refl].
  specialize (IHc cs eq_refl). revert a.
  induction IHc as [| c cs Hc _ IH]; intros a; cbn; [apply R_refl |].
  eapply R_trans; [apply Hc | apply IH].
Qed.

End Tallies.

Section TallyFacts.
Import Tree Stats Spec Further Samples.

Implicit Types (acc : Acc) (m : gmap string ItemStat).

Lemma sum_over_insert (f : ItemStat -> Z) m k e :
  sum_over f (<[k := e]> m)
  = f e + sum_over f m - match m !! k with Some e0 => f e0 | None => 0 end.
Proof.
  unfold sum_over.
  assert (forall (m' : gmap string ItemStat) j1 j2 z1 z2 (y : Z),
             j1 <> j2 -> m' !! j1 = Some z1 -> m' !! j2 = Some z2 ->
             f z1 + (f z2 + y) = f z2 + (f z1 + y)) as Hcomm by (intros; lia).
  destruct (m !! k) as [e0 |] eqn:Hk.
  - rewrite <- insert_delete_eq.
    rewrite map_fold_insert_L; [| apply Hcomm | apply lookup_delete_eq].
    rewrite (map_fold_delete_L _ _ k e0 m); [lia | apply Hcomm | exact Hk].
  - rewrite map_fold_insert_L; [lia | apply Hcomm | exact Hk].
Qed.

(** Where [record] leaves the entry of the id. *)
Lemma record_items itemId vol acc :
  acc_items (record itemId vol acc)
  = <[Js.key itemId :=
        let e := default (mkItemStat itemId 0 0) (acc_items acc !! Js.key itemId) in
        mkItemStat (stat_id e) (count e + 1) (volume e + vol)]>
      (acc_items acc).
Proof.
  unfold record. cbn [acc_items].
  destruct (acc_items acc !! Js.key itemId) as [e |] eqn:He; cbn [default].
  - apply map_eq. intros k. rewrite lookup_alter, lookup_insert.
    destruct (decide (Js.key itemId = k)); [now rewrite He | reflexivity].
  - now rewrite alter_insert_eq.
Qed.

Lemma record_sums itemId vol acc :
  sum_over volume (acc_items (record itemId vol acc))
  = sum_over volume (acc_items acc) + vol.
Proof.
  rewrite record_items, !sum_over_insert.
  destruct (acc_items acc !! Js.key itemId); cbn; lia.
Qed.

Lemma record_well_kept itemId vol acc :
  well_kept (acc_items acc) ->
  well_kept (acc_items (record itemId vol acc)).
Proof.
  intros Hwk k e. rewrite record_items, lookup_insert.
  destruct (decide (Js.key itemId = k)) as [<- | Hne]; [| apply Hwk].
  intros [= <-]. cbn.
  destruct (acc_items acc !! Js.key itemId) as [e0 |] eqn:He; cbn.
  - destruct (Hwk _ _ He). split; [assumption | lia].
  - split; [reflexivity | lia].
Qed.

(** X9.  Whatever the tree, the volumes on record for the items add up
    to [totalFilled], and every entry of the statistics is kept under the
    text of its own id with a count of at least 1. *)
Theorem tally_adds_up : forall tree cat dims,
  let s := calculateStatisticsNew tree cat dims in
  sum_over volume (items s) = totalFilled s
  /\ well_kept (items s).
Proof.
  intros tree cat [[bL bW] bH] s. subst s. cbn -[countItems].
  set (R := fun a a' : Acc =>
              sum_over volume (acc_items a) = acc_totalFilled a
              /\ well_kept (acc_items a) ->
              sum_over volume (acc_items a') = acc_totalFilled a'
              /\ well_kept (acc_items a')).
  assert (sum_over volume (acc_items (mkAcc ∅ 0)) = acc_totalFilled (mkAcc ∅ 0)
          /\ well_kept (acc_items (mkAcc ∅ 0))) as Hstart.
  { split; [reflexivity |]. intros k e. cbn. now rewrite lookup_empty. }
  destruct tree as [t |]; [| exact Hstart].
  revert Hstart. apply (countItems_run R); unfold R.
  - auto.
  - auto.
  - intros itemId vol acc _ [Hsum Hwk]. split.
    + rewrite (record_sums itemId vol acc). cbn. lia.
    + now apply record_well_kept.
Qed.

End TallyFacts.

(** ** The statistics of a response *)

Section ResponseFacts.
Import Tree Stats Views Spec Further Samples.

Implicit Types (counts : gmap string Z) (cat : list Item).

(** X10.  With no tree the statistics are empty: nothing filled, the
    whole block waste, and the waste 100 percent when the block has a
    volume. *)
Theorem no_tree_is_all_waste : forall cat (bL bW bH : Z),
  0 < bL * bW * bH ->
  let s := calculateStatisticsNew None cat (bL, bW, bH) in
  items s = ∅ /\ totalFilled s = 0 /\ totalWaste s = bL * bW * bH
  /\ (fillPercent s == 0)%Q /\ (wastePercent s == 100)%Q.
Proof.
  intros cat bL bW bH Hpos s. subst s. cbn -[Z.mul percent].
  apply Z.ltb_lt in Hpos as Hb. rewrite Hb, Z.sub_0_r.
  repeat split; try reflexivity.
  unfold percent. field.
  change 0%Q with (inject_Z 0). rewrite inject_Z_injective. lia.
Qed.

Lemma no_tree_is_all_waste_witness :
  0 < 200 * 100 * 60
  /\ (wastePercent (calculateStatisticsNew None catalogue (200, 100, 60)%Z) == 100)%Q.
Proof.
  assert (0 < 200 * 100 * 60) as Hpos by lia.
  split; [exact Hpos |].
  exact (proj2 (proj2 (proj2 (proj2 (no_tree_is_all_waste catalogue 200 100 60 Hpos))))).
Defined.

Lemma handler_entry toNumber cat counts k :
  fold_left (addCount toNumber cat) (map_to_list counts) ∅ !! k
  = match counts !! k with
    | Some c =>
        Some (mkItemStat (Js.IdStr k) c
                (match List.find (fun it => loose_eq toNumber (id it) k) cat with
                 | Some it => l it * w it * h it
                 | None => 0
                 end * c))
    | None => None
    end.
Proof.
  destruct (counts !! k) as [c |] eqn:Hk.
  - destruct (addCount_visited toNumber cat (map_to_list counts) ∅ k c)
      as (vol & -> & ->); [apply NoDup_fst_map_to_list | | reflexivity].
    now apply elem_of_map_to_list.
  - rewrite addCount_other; [apply lookup_empty |].
    intros Hin. apply list_elem_of_fmap in Hin as ([k' c] & -> & Hin).
    apply elem_of_map_to_list in Hin. cbn in Hk. congruence.
Qed.

(** X11.  The counts in the statistics of a response are the producer's
    [item_counts], key by key: no key is added, none is dropped, no
    count is changed. *)
Theorem handler_counts_are_the_producers :
  forall toNumber cat result counts (bL bW bH : Z) k,
    item_counts result = Some counts ->
    count <$> items (handlerStats toNumber bL bW bH cat result) !! k
    = counts !! k.
Proof.
  intros toNumber cat result counts bL bW bH k Hc.
  unfold handlerStats. cbn [items]. rewrite Hc, handler_entry.
  now destruct (counts !! k).
Qed.

Lemma handler_counts_witness :
  item_counts two_placed = Some {[ "1" := 2 ]}
  /\ count <$> items (handlerStats decimal 200 100 60 catalogue two_placed) !! "1"
     = Some 2.
Proof.
  split; [reflexivity |].
  exact (handler_counts_are_the_producers decimal catalogue two_placed
           {[ "1" := 2 ]} 200 100 60 "1" eq_refl).
Defined.

(** X12.  A key of [item_counts] that no catalogue id equals, such as a
    key that is not the text of a number, keeps its count and is given
    the volume 0. *)
Theorem handler_unknown_key_has_no_volume :
  forall toNumber cat result counts (bL bW bH : Z) k c,
    item_counts result = Some counts ->
    counts !! k = Some c ->
    Forall (fun it => loose_eq toNumber (id it) k = false) cat ->
    items (handlerStats toNumber bL bW bH cat result) !! k
    = Some (mkItemStat (Js.IdStr k) c 0).
Proof.
  intros toNumber cat result counts bL bW bH k c Hc Hk Hno.
  unfold handlerStats. cbn [items]. rewrite Hc, handler_entry, Hk.
  assert (List.find (fun it => loose_eq toNumber (id it) k) cat = None) as ->.
  { induction Hno as [| it cat Hit _ IH]; cbn; [reflexivity |]. now rewrite Hit. }
  reflexivity.
Qed.

End ResponseFacts.

Section ResponseCases.
Import Tree Stats Views Spec Further Samples Cases.

Lemma handler_unknown_key_witness :
  item_counts stray_key = Some {[ "x9" := 3 ]}
  /\ ({[ "x9" := 3 ]} : gmap string Z) !! "x9" = Some 3
  /\ Forall (fun it => loose_eq decimal (id it) "x9" = false) catalogue
  /\ items (handlerStats decimal 200 100 60 catalogue stray_key) !! "x9"
     = Some (mkItemStat (Js.IdStr "x9") 3 0).
Proof.
  assert (Forall (fun it => loose_eq decimal (id it) "x9" = false) catalogue)
    as Hno by (repeat constructor).
  split; [reflexivity |]. split; [reflexivity |]. split; [exact Hno |].
  exact (handler_unknown_key_has_no_volume decimal catalogue stray_key
           {[ "x9" := 3 ]} 200 100 60 "x9" 3 eq_refl eq_refl Hno).
Defined.

(** X13.  The table has one row per line of the catalogue, in the order
    of the catalogue, whatever the statistics hold.  After the
    statistics of a response, a row shows the producer's count for the
    text of its id, and 0 when the producer has no count for it; it is
    coloured by its place in the catalogue. *)
Theorem table_follows_the_catalogue :
  forall toNumber cat result counts (bL bW bH : Z),
    item_counts result = Some counts ->
    let table :=
      updateStatsTable cat (handlerStats toNumber bL bW bH cat result) bL bW bH in
    List.map row_id table = List.map id cat
    /\ forall i item,
         cat !! i = Some item ->
         exists row,
           table !! i = Some row
           /\ row_id row = id item
           /\ row_count row = default 0 (counts !! Js.String_of_num (id item))
           /\ row_color row = Color.getItemColorHex (Js.IdNum (id item)) i.
Proof.
  intros toNumber cat result counts bL bW bH Hc table. subst table.
  unfold updateStatsTable. split.
  - apply list_eq. intros i.
    rewrite !list_lookup_fmap, list_lookup_imap.
    now destruct (cat !! i).
  - intros i item Hi. rewrite list_lookup_imap, Hi. cbn [fmap option_fmap option_map].
    eexists. split; [reflexivity |]. cbn [row_id row_count row_color].
    split; [reflexivity |]. split; [| reflexivity].
    unfold lookup_num, handlerStats. cbn [items Js.key Js.String].
    rewrite Hc, handler_entry.
    now destruct (counts !! Js.String_of_num (id item)).
Qed.

Lemma table_follows_the_catalogue_witness :
  item_counts only_second = Some {[ "2" := 1 ]}
  /\ List.map row_id
       (updateStatsTable catalogue
          (handlerStats decimal 40 40 40 catalogue only_second) 40 40 40)
     = [1; 2].
Proof.
  split; [reflexivity |].
  exact (proj1 (table_follows_the_catalogue decimal catalogue only_second
                  {[ "2" := 1 ]} 40 40 40 eq_refl)).
Defined.

End ResponseCases.

(** ** The two handlers *)

Section Handlers.
Import Tree Scene Draw Stats Views Spec Further Samples Cases.

Implicit Types (w : World) (item : Placed).

(** X14.  When the response has placements, the unpatched handler
    reports the same block volume, filled volume, percentages and counts
    as the patched one; it takes the waste from the response and gives
    every item the volume 0. *)
Theorem unpatched_statistics_agree_up_to_volumes :
  forall toNumber cat result waste tree (bL bW bH : Z) p ps,
    items_placed result = Some (p :: ps) ->
    let a := App.stats bL bW bH cat result waste tree in
    let h := handlerStats toNumber bL bW bH cat result in
    totalVolume a = totalVolume h
    /\ totalFilled a = totalFilled h
    /\ fillPercent a = fillPercent h
    /\ wastePercent a = wastePercent h
    /\ totalWaste a = Js.num_or waste 0
    /\ (forall k, count <$> items a !! k = count <$> items h !! k)
    /\ (forall k e, items a !! k = Some e -> volume e = 0).
Proof.
  intros toNumber cat result waste tree bL bW bH p ps Hp a h. subst a h.
  unfold App.stats, handlerStats. rewrite Hp. cbn [totalVolume totalFilled
    fillPercent wastePercent totalWaste items].
  repeat split.
  - intros k. destruct (item_counts result) as [counts |]; [| reflexivity].
    change (fold_left App.addCount (map_to_list counts) ∅)
      with (fold_left (addCount toNumber []) (map_to_list counts) ∅).
    rewrite !handler_entry. now destruct (counts !! k).
  - intros k e. destruct (item_counts result) as [counts |];
      [| rewrite lookup_empty; discriminate].
    change (fold_left App.addCount (map_to_list counts) ∅)
      with (fold_left (addCount toNumber []) (map_to_list counts) ∅).
    rewrite handler_entry. destruct (counts !! k); [| discriminate].
    now intros [= <-].
Qed.

Lemma unpatched_statistics_witness :
  items_placed two_placed
  = Some [mkPlaced (Js.IdNum 1) (0, 0, 0) (100, 50, 30);
          mkPlaced (Js.IdNum 1) (102, 0, 0) (100, 50, 30)]
  /\ totalWaste (App.stats 200 100 60 catalogue two_placed None None) = 0
  /\ totalWaste (handlerStats decimal 200 100 60 catalogue two_placed) = 900000.
Proof.
  split; [reflexivity |]. split; [| reflexivity].
  exact (proj1 (proj2 (proj2 (proj2 (proj2
           (unpatched_statistics_agree_up_to_volumes decimal catalogue
              two_placed None None 200 100 60 _ _ eq_refl)))))).
Defined.

(** The loop of app.js is the leaf call of the renderers. *)
Lemma app_renderPlaced_as_leaf w item :
  App.renderPlaced w item
  = let '(dl, dw, dh) := dimensions item in
    drawLeaf (placed_item_id item) (position item) dl dw dh w.
Proof.
  unfold App.renderPlaced, drawLeaf, colorFor.
  destruct (dimensions item) as [[dl dw] dh], (position item) as [[x y] z].
  now destruct (itemColorMap w !! Js.key (placed_item_id item)).
Qed.

(** The loop of the patch is the leaf call on the text of the id, made
    with the opacity 1 whatever the slider says. *)
Lemma patch_renderPlaced_as_leaf w item :
  renderPlaced w item
  = let '(dl, dw, dh) := dimensions item in
    with_opacity (currentOpacity w)
      (drawLeaf (Js.IdStr (Js.String (placed_item_id item))) (position item)
         dl dw dh
         (with_opacity 1 w)).
Proof.
  unfold renderPlaced, drawLeaf, colorFor, with_opacity, set_maps, addBox, Js.key,
    window_currentOpacity, q_or.
  destruct (dimensions item) as [[dl dw] dh], (position item) as [[x y] z].
  cbn [Js.String itemColorMap itemIndexMap scene itemMeshes itemLabels
       currentOpacity].
  destruct w as [sc ms ls op cm im].
  cbn [itemColorMap itemIndexMap scene itemMeshes itemLabels currentOpacity].
  destruct (cm !! Js.String (placed_item_id item));
    cbn [itemColorMap itemIndexMap scene itemMeshes itemLabels currentOpacity
         fst snd];
    destruct sc; cbn [fst]; try reflexivity;
    destruct ((dl <=? 0) || (dw <=? 0) || (dh <=? 0)); reflexivity.
Qed.

End Handlers.

(** ** The placements of a response on display *)

Section Placements.
Import Tree Scene Draw Stats Views Spec Further Samples Cases.

Implicit Types (w : World) (item : Placed) (o : Vec3).

Lemma drawLeaf_geometry itemId o L W H w :
  initialised w ->
  initialised (drawLeaf itemId o L W H w)
  /\ List.map geometry (placed (drawLeaf itemId o L W H w))
     = List.map geometry (placed w)
       ++ (if negb ((L <=? 0) || (W <=? 0) || (H <=? 0))
           then [(o, (L, W, H))] else []).
Proof.
  intros Hw.
  destruct (drawLeaf_spec itemId o L W H w)
    as (_ & _ & _ & _ & Hd & Hm).
  assert (initialised (drawLeaf itemId o L W H w)) as Hw'.
  { unfold initialised in *.
    destruct (scene w); [| contradiction].
    now destruct (scene (drawLeaf itemId o L W H w)). }
  split; [exact Hw' |].
  destruct Hm as [[Hm [Hs | Hdim]] | (b & Hm & Ho & Hsz & Hb & _)].
  - contradiction.
  - rewrite (placed_unchanged _ _ Hm).
    assert ((L <=? 0) || (W <=? 0) || (H <=? 0) = true) as ->.
    { rewrite !orb_true_iff, !Z.leb_le. tauto. }
    cbn. now rewrite app_nil_r.
  - rewrite (placed_added _ _ _ Hm), List.map_app.
    destruct Hb as (HL & HW & HH & _).
    unfold size_of in Hsz. injection Hsz as EL EW EH. rewrite EL, EW, EH in *.
    assert ((L <=? 0) || (W <=? 0) || (H <=? 0) = false) as ->.
    { rewrite !orb_false_iff, !Z.leb_gt. tauto. }
    cbn. unfold geometry. unfold origin_of in Ho. rewrite EL, EW, EH.
    now rewrite Ho.
Qed.

Lemma loop_geometry (step : World -> Placed -> World) :
  (forall w item,
      initialised w ->
      initialised (step w item)
      /\ List.map geometry (placed (step w item))
         = List.map geometry (placed w)
           ++ (if accepted item then [asked item] else [])) ->
  forall items w,
    initialised w ->
    List.map geometry (placed (fold_left step items w))
    = List.map geometry (placed w) ++ List.map asked (List.filter accepted items).
Proof.
  intros Hstep items. induction items as [| item items IH]; intros w Hw; cbn.
  - now rewrite app_nil_r.
  - destruct (Hstep w item Hw) as [Hw' Hg]. rewrite IH, Hg by assumption.
    rewrite <- app_assoc. now destruct (accepted item).
Qed.

Lemma app_step_geometry w item :
  initialised w ->
  initialised (App.renderPlaced w item)
  /\ List.map geometry (placed (App.renderPlaced w item))
     = List.map geometry (placed w)
       ++ (if accepted item then [asked item] else []).
Proof.
  intros Hw. rewrite app_renderPlaced_as_leaf. unfold accepted, asked.
  destruct (dimensions item) as [[dl dw] dh].
  now apply drawLeaf_geometry.
Qed.

Lemma patch_step_geometry w item :
  initialised w ->
  initialised (renderPlaced w item)
  /\ List.map geometry (placed (renderPlaced w item))
     = List.map geometry (placed w)
       ++ (if accepted item then [asked item] else []).
Proof.
  intros Hw. rewrite patch_renderPlaced_as_leaf. unfold accepted, asked.
  destruct (dimensions item) as [[dl dw] dh].
  match goal with
  | |- context [drawLeaf ?i ?o ?L ?W ?H (with_opacity ?q w)] =>
      exact (drawLeaf_geometry i o L W H (with_opacity q w) Hw)
  end.
Qed.

(** X15.  With a scene, both handlers put the placements of the response
    on display one by one, in the order given, each where and as large
    as the response says, and leave out those with a side that is not
    positive. *)
Theorem placements_shown_as_given : forall w result tree dims k p ps,
  initialised w ->
  items_placed result = Some (p :: ps) ->
  List.map geometry (placed (renderItems w result))
  = List.map geometry (placed w) ++ List.map asked (List.filter accepted (p :: ps))
  /\ List.map geometry (placed (App.render w result tree dims k))
     = List.map geometry (placed w)
       ++ List.map asked (List.filter accepted (p :: ps)).
Proof.
  intros w result tree dims k p ps Hw Hp.
  unfold renderItems, App.render. rewrite Hp. split.
  - exact (loop_geometry renderPlaced patch_step_geometry (p :: ps)
             (set_maps ∅ ∅ w) Hw).
  - exact (loop_geometry App.renderPlaced app_step_geometry (p :: ps)
             (set_maps ∅ ∅ w) Hw).
Qed.

Lemma placements_shown_witness :
  initialised cleared
  /\ items_placed with_flat_item
     = Some [mkPlaced (Js.IdNum 1) (0, 0, 0) (100, 50, 30);
             mkPlaced (Js.IdNum 2) (0, 52, 0) (40, 40, 0);
             mkPlaced (Js.IdNum 1) (102, 0, 0) (100, 50, 30)]
  /\ List.map geometry (placed (renderItems cleared with_flat_item))
     = [((0, 0, 0), (100, 50, 30)); ((102, 0, 0), (100, 50, 30))].
Proof.
  assert (initialised cleared) as Hw by discriminate.
  split; [exact Hw |]. split; [reflexivity |].
  exact (proj1 (placements_shown_as_given cleared with_flat_item None block 2
                  _ _ Hw eq_refl)).
Defined.

End Placements.

(** ** Colours after a run of a handler *)

Section HandlerColours.
Import Tree Scene Draw Stats Views Spec Further Samples Cases.

Implicit Types (w : World) (item : Placed).

Lemma drawLeaf_hashed_by_text (s : string) o L W H w :
  hashed_by_text w -> hashed_by_text (drawLeaf (Js.IdStr s) o L W H w).
Proof.
  intros Hh.
  destruct (drawLeaf_spec (Js.IdStr s) o L W H w) as (Hc & Hi & _).
  unfold hashed_by_text. rewrite Hc, Hi. clear Hc Hi. unfold colorFor.
  cbn [Js.key Js.String].
  destruct (itemColorMap w !! s) as [c |] eqn:Hs;
    cbn [fst snd]; unfold set_maps; cbn [itemColorMap itemIndexMap];
    [exact Hh |].
  intros k c. rewrite !lookup_insert.
  destruct (decide (s = k)) as [<- | Hne]; [| apply Hh].
  intros [= <-]. eauto.
Qed.

Lemma patch_step_keeps (P : World -> Prop) :
  (forall q w, P w -> P (with_opacity q w)) ->
  (forall s o L W H w, P w -> P (drawLeaf (Js.IdStr s) o L W H w)) ->
  forall items w, P w -> P (fold_left renderPlaced items w).
Proof.
  intros Hop Hleaf items.
  induction items as [| item items IH]; intros w Hw; cbn; [exact Hw |].
  apply IH. rewrite patch_renderPlaced_as_leaf.
  destruct (dimensions item) as [[dl dw] dh]. now apply Hop, Hleaf, Hop.
Qed.

Lemma app_step_keeps (P : World -> Prop) :
  (forall i o L W H w, P w -> P (drawLeaf i o L W H w)) ->
  forall items w, P w -> P (fold_left App.renderPlaced items w).
Proof.
  intros Hleaf items.
  induction items as [| item items IH]; intros w Hw; cbn; [exact Hw |].
  apply IH. rewrite app_renderPlaced_as_leaf.
  destruct (dimensions item) as [[dl dw] dh]. now apply Hleaf.
Qed.

Lemma fresh_maps_fine w :
  itemMeshes w = [] ->
  coloured (set_maps ∅ ∅ w) /\ indexed (set_maps ∅ ∅ w)
  /\ hashed_by_text (set_maps ∅ ∅ w).
Proof.
  intros Hm. split; [| split].
  - intros b i Hin. unfold placed, set_maps in Hin. cbn in Hin.
    rewrite Hm in Hin. destruct Hin.
  - now apply indexed_empty.
  - intros k c. unfold set_maps. cbn. now rewrite lookup_empty.
Qed.

(** X16.  After the 3D loop of the patch on an empty display, boxes of
    one item have one colour; the colour dictionaries have the same
    keys, with indices that are all different and below their number;
    and the colour on record for a key is [getItemColor] of the key, as
    a string, at the index of the key. *)
Theorem patch_colours_by_first_appearance : forall w result,
  itemMeshes w = [] ->
  let w' := renderItems w result in
  one_colour_per_item w' /\ indexed w' /\ hashed_by_text w'.
Proof.
  intros w result Hm w'. subst w'.
  destruct (fresh_maps_fine w Hm) as (Hc & Hi & Hh).
  unfold renderItems.
  destruct (items_placed result) as [[| p ps] |];
    try (split; [now apply coloured_one_colour | now split]).
  split; [apply coloured_one_colour | split].
  - apply (patch_step_keeps coloured); [auto | | exact Hc].
    intros. now apply drawLeaf_coloured.
  - apply (patch_step_keeps indexed); [auto | | exact Hi].
    intros. now apply drawLeaf_indexed.
  - apply (patch_step_keeps hashed_by_text); [auto | | exact Hh].
    intros. now apply drawLeaf_hashed_by_text.
Qed.

Lemma patch_colours_witness :
  itemMeshes cleared = []
  /\ one_colour_per_item (renderItems cleared two_placed)
  /\ hashed_by_text (renderItems cleared two_placed).
Proof.
  split; [reflexivity |].
  destruct (patch_colours_by_first_appearance cleared two_placed eq_refl)
    as (H1 & _ & H3).
  split; [exact H1 | exact H3].
Defined.

Lemma app_render_coloured w result tree dims k :
  itemMeshes w = [] ->
  coloured (App.render w result tree dims k)
  /\ indexed (App.render w result tree dims k).
Proof.
  intros Hm. destruct (fresh_maps_fine w Hm) as (Hc & Hi & _).
  unfold App.render.
  assert (coloured
            match tree with
            | Some t => drawTreeNew t dims k (0, 0, 0) (set_maps ∅ ∅ w)
            | None => set_maps ∅ ∅ w
            end
          /\ indexed
               match tree with
               | Some t => drawTreeNew t dims k (0, 0, 0) (set_maps ∅ ∅ w)
               | None => set_maps ∅ ∅ w
               end) as Htree.
  { destruct tree as [t |]; [| now split]. split.
    - revert Hc.
      apply (drawTreeNew_run (fun w w' => coloured w -> coloured w'));
        [auto | auto | intros; now apply drawLeaf_coloured].
    - revert Hi.
      apply (drawTreeNew_run (fun w w' => indexed w -> indexed w'));
        [auto | auto | intros; now apply drawLeaf_indexed]. }
  destruct (items_placed result) as [[| p ps] |]; try exact Htree.
  split.
  - apply (app_step_keeps coloured); [| exact Hc].
    intros. now apply drawLeaf_coloured.
  - apply (app_step_keeps indexed); [| exact Hi].
    intros. now apply drawLeaf_indexed.
Qed.

End HandlerColours.

(** ** The item list of the unpatched report *)

Section Report.
Import Tree Scene Draw Stats Views Spec Further Samples Cases.

Implicit Types (w : World) (cat : list Item).

Lemma insert_by_id_Forall (P : Z -> Prop) x cat :
  Forall P (List.map id (App.insert_by_id x cat))
  <-> P (id x) /\ Forall P (List.map id cat).
Proof.
  induction cat as [| y cat IH]; cbn.
  - now rewrite Forall_cons.
  - destruct (id x <=? id y); cbn.
    + now rewrite !Forall_cons.
    + rewrite !Forall_cons, IH. tauto.
Qed.

Lemma insert_by_id_ascending x cat :
  ascending (List.map id cat) ->
  ascending (List.map id (App.insert_by_id x cat)).
Proof.
  induction cat as [| y cat IH]; cbn; [auto |].
  intros [Hy Hasc]. destruct (Z.leb_spec (id x) (id y)) as [Hle | Hgt]; cbn.
  - split; [| auto]. constructor; [exact Hle |].
    eapply Forall_impl; [exact Hy |]. cbn. intros; lia.
  - split; [| auto]. apply insert_by_id_Forall. split; [lia | exact Hy].
Qed.

Lemma insert_by_id_perm x cat : App.insert_by_id x cat ≡ₚ x :: cat.
Proof.
  induction cat as [| y cat IH]; cbn; [reflexivity |].
  destruct (id x <=? id y); [reflexivity |].
  rewrite IH. apply Permutation_swap.
Qed.

Lemma sort_by_id_spec cat :
  ascending (List.map id (App.sort_by_id cat)) /\ App.sort_by_id cat ≡ₚ cat.
Proof.
  induction cat as [| x cat [IHa IHp]]; cbn; [auto |]. split.
  - now apply insert_by_id_ascending.
  - now rewrite insert_by_id_perm, IHp.
Qed.

(** X17.  When the statistics have an entry, the item list of the
    unpatched report has one line per line of the catalogue, by
    ascending id; when they have none it is empty. *)
Theorem report_lists_the_catalogue_by_id : forall cat st w,
  let lines := App.reportLines cat st w in
  (items st = ∅ -> lines = [])
  /\ (items st <> ∅ ->
      ascending (List.map App.line_id lines)
      /\ List.map App.line_id lines ≡ₚ List.map id cat).
Proof.
  intros cat st w lines. subst lines. unfold App.reportLines. split.
  - intros ->. reflexivity.
  - intros Hne. destruct (decide (size (items st) = 0%nat)) as [Hz | _].
    { apply map_size_empty_iff in Hz. contradiction. }
    rewrite List.map_map. cbn [App.line_id].
    destruct (sort_by_id_spec cat) as [Ha Hp]. split; [exact Ha |].
    now rewrite Hp.
Qed.

(** X18.  After the unpatched handler has drawn on an empty display,
    every line of its report shows the colour of the boxes of its item:
    the report reads the colour dictionary the boxes were coloured
    from. *)
Theorem report_shows_the_colour_of_the_boxes :
  forall w result tree dims k cat st line b itemId,
    itemMeshes w = [] ->
    let w' := App.render w result tree dims k in
    In line (App.reportLines cat st w') ->
    In b (placed w') ->
    box_itemId b = Some itemId ->
    Js.key itemId = Js.String_of_num (App.line_id line) ->
    App.line_color line = Some (box_color b).
Proof.
  intros w result tree dims k cat st line b itemId Hm w' Hline Hb Hid Hkey.
  destruct (app_render_coloured w result tree dims k Hm) as [Hcol _].
  fold w' in Hcol. specialize (Hcol b itemId Hb Hid).
  unfold App.reportLines in Hline.
  destruct (decide (size (items st) = 0%nat)); [destruct Hline |].
  apply in_map_iff in Hline as (item & <- & _). cbn [App.line_color App.line_id] in *.
  cbn [Js.key Js.String]. unfold Js.key in Hkey, Hcol. now rewrite <- Hkey.
Qed.

End Report.

Section ReportWitnesses.
Import Tree Scene Draw Stats Views Spec Further Samples Cases.

Lemma report_lists_the_catalogue_witness :
  items (App.stats 200 100 60 catalogue two_placed None None) <> ∅
  /\ List.map App.line_id
       (App.reportLines catalogue
          (App.stats 200 100 60 catalogue two_placed None None) cleared)
     ≡ₚ [1; 2].
Proof.
  assert (items (App.stats 200 100 60 catalogue two_placed None None) <> ∅)
    as Hne.
  { intros Hempty. apply (f_equal (fun m => m !! "1")) in Hempty.
    vm_compute in Hempty. discriminate Hempty. }
  split; [exact Hne |].
  exact (proj2 (proj2 (report_lists_the_catalogue_by_id catalogue
                         (App.stats 200 100 60 catalogue two_placed None None)
                         cleared) Hne)).
Defined.

Lemma report_shows_the_colour_witness :
  let w' := App.render cleared two_placed None block 2 in
  let st := App.stats 200 100 60 catalogue two_placed None None in
  let line := App.mkLine (Some (Color.mkHSL (-10) 75 50)) 1 2 (Some (0 # 1200000)) in
  let b := mkBox 0 0 0 100 50 30 (Color.mkHSL (-10) 75 50) 1
             (Some (Js.IdNum 1)) false in
  itemMeshes cleared = []
  /\ In b (placed w')
  /\ App.line_color line = Some (box_color b).
Proof.
  intros w' st line b.
  assert (In b (placed w')) as Hb by (vm_compute; left; reflexivity).
  split; [reflexivity |]. split; [exact Hb |].
  apply (report_shows_the_colour_of_the_boxes cleared two_placed None block 2
           catalogue st line b (Js.IdNum 1) eq_refl); try reflexivity;
    try exact Hb.
  vm_compute. left. reflexivity.
Defined.

End ReportWitnesses.

(** ** The conflict box of the cutting program *)

Section ConflictBox.
Import Program Spec Samples.

Lemma no_warning_among_rows (steps : list Step) n :
  forall f : nat -> Step -> Html,
    (forall i step, exists bg oc ic vol,
        f i step
        = TableRow bg oc ic (Js.String_of_num (seq step)) (operation step)
            (String.append (indent_of (default O (depth (node step))))
                           (description step))
            vol) ->
    ~ In (ConflictsOpen n) (imap f steps).
Proof.
  induction steps as [| step steps IH]; intros f Hf; cbn; [auto |].
  destruct (Hf O step) as (bg & oc & ic & vol & ->).
  intros [Heq | Hin]; [discriminate |].
  apply (IH (f ∘ S)); [| exact Hin]. intros i step'. apply Hf.
Qed.

Lemma no_warning_among_lines (cs : list Conflict) n :
  ~ In (ConflictsOpen n)
       (List.map (fun c => ConflictLine (conflict_description c)) cs).
Proof.
  induction cs as [| c cs IH]; cbn; [auto |].
  intros [Heq | Hin]; [discriminate | auto].
Qed.

(** X19.  When the report has a conflict warning, the number it
    announces is the number of conflict descriptions listed under it,
    which is not 0, and the report does not say there are no
    conflicts. *)
Theorem conflict_warning_counts_its_lines : forall ct steps n,
  sequence ct = Some steps ->
  In (ConflictsOpen n) (buildCuttingTreeHTML (Some ct)) ->
  n = List.length (conflict_lines (buildCuttingTreeHTML (Some ct)))
  /\ (0 < n)%nat
  /\ says_no_conflicts (buildCuttingTreeHTML (Some ct)) = false.
Proof.
  intros ct steps n Hseq. unfold buildCuttingTreeHTML. rewrite Hseq.
  destruct (rows_steps steps renderStep renderStep_shown) as (_ & Hc & Hn).
  pose proof (no_warning_among_rows steps n renderStep renderStep_shown) as Hrows.
  pose proof (no_warning_among_lines) as Hlines.
  destruct (conflicts ct) as [[| c cs] |]; intros Hin;
    rewrite !in_app_iff in Hin; cbn [In] in Hin;
    decompose [or] Hin; clear Hin; try discriminate; try contradiction;
    try (exfalso; eapply Hlines; eassumption);
    try (exfalso; eapply Hrows; eassumption).
  match goal with H : ConflictsOpen _ = ConflictsOpen n |- _ => injection H as <- end.
  rewrite !conflict_lines_app, !says_no_conflicts_app, Hc, Hn.
  destruct (rows_conflicts (c :: cs)) as (_ & Hl & Hs). rewrite Hl, Hs.
  cbn [conflict_lines says_no_conflicts app orb]. rewrite !app_nil_r.
  rewrite List.length_map. cbn. repeat split. lia.
Qed.

Lemma conflict_warning_witness :
  sequence (mkCuttingTree (Some []) None None None
              (Some [mkConflict "cut 3 crosses item 1"]))
  = Some []
  /\ 1%nat
     = List.length
         (conflict_lines
            (buildCuttingTreeHTML
               (Some (mkCuttingTree (Some []) None None None
                        (Some [mkConflict "cut 3 crosses item 1"]))))).
Proof.
  split; [reflexivity |].
  refine (proj1 (conflict_warning_counts_its_lines
                   (mkCuttingTree (Some []) None None None
                      (Some [mkConflict "cut 3 crosses item 1"]))
                   [] 1%nat eq_refl _)).
  cbn. right. right. left. reflexivity.
Defined.

End ConflictBox.

(** ** Clearing the scene *)

Section Clearing.
Import Scene Stage Cases.

Implicit Types (g : Globals) (cs : list Child).

Lemma filter_light_lights cs :
  Forall (fun c => is_light c = true) (List.filter is_light cs).
Proof.
  induction cs as [| c cs IH]; cbn; [constructor |].
  destruct (is_light c) eqn:Hc; [constructor |]; assumption.
Qed.

Lemma filter_light_again cs :
  List.filter is_light (List.filter is_light cs) = List.filter is_light cs.
Proof.
  induction cs as [| c cs IH]; cbn; [reflexivity |].
  destruct (is_light c) eqn:Hc; cbn; rewrite ?Hc, IH; reflexivity.
Qed.

Lemma clearScene_children g cs :
  children g = Some cs ->
  clearScene g
  = mkGlobals (Some (if decide (List.filter is_light cs = [])
                     then default_lights else List.filter is_light cs))
              [] [] None.
Proof.
  intros Hcs. unfold clearScene. rewrite Hcs, filter_light_again.
  destruct (List.filter is_light cs) as [| c l]; reflexivity.
Qed.

(** X20.  Where there is a scene, [clearScene] leaves in it lights only
    and at least one: the lights that were there, in their order, or the
    three default lights when there was none; the lists of meshes and of
    labels are emptied and the wireframe is forgotten. *)
Theorem clearScene_leaves_lights : forall g cs,
  children g = Some cs ->
  exists lights,
    children (clearScene g) = Some lights
    /\ Forall (fun c => is_light c = true) lights
    /\ lights <> []
    /\ (List.filter is_light cs <> [] -> lights = List.filter is_light cs)
    /\ (List.filter is_light cs = [] -> lights = default_lights)
    /\ meshes (clearScene g) = []
    /\ labels (clearScene g) = []
    /\ blockWireframe (clearScene g) = None.
Proof.
  intros g cs Hcs. rewrite (clearScene_children g cs Hcs). cbn.
  eexists. split; [reflexivity |].
  destruct (decide (List.filter is_light cs = [])) as [He | Hne].
  - repeat split; try contradiction; try discriminate.
    repeat constructor.
  - repeat split; try contradiction; try assumption.
    apply filter_light_lights.
Qed.

Lemma clearScene_leaves_lights_witness :
  children used_stage
  = Some [ALight (DirectionalLight 1 (1000, 2000, 1000));
          AWireframe 0 0 0 200 100 60;
          ALight (AmbientLight 0.5);
          AnObject (Mesh (mkBox 0 0 0 100 50 30 (Color.mkHSL 0 80 55) 1 None false))]
  /\ children (clearScene used_stage)
     = Some [ALight (DirectionalLight 1 (1000, 2000, 1000));
             ALight (AmbientLight 0.5)].
Proof.
  split; [reflexivity |].
  destruct (clearScene_leaves_lights used_stage _ eq_refl)
    as (lights & -> & _ & _ & Hkept & _).
  f_equal. apply Hkept. discriminate.
Defined.

(** X21.  Clearing a cleared scene changes nothing: the lights
    [clearScene] keeps or puts back are not put back again. *)
Theorem clearScene_once_is_enough : forall g,
  clearScene (clearScene g) = clearScene g.
Proof.
  intros g. destruct (children g) as [cs |] eqn:Hcs.
  - rewrite (clearScene_children g cs Hcs).
    erewrite clearScene_children by reflexivity. f_equal. f_equal.
    destruct (decide (List.filter is_light cs = [])) as [He | Hne].
    + reflexivity.
    + rewrite filter_light_again.
      destruct (decide (List.filter is_light cs = [])); [contradiction | reflexivity].
  - unfold clearScene. now rewrite Hcs, Hcs.
Qed.

(** X22.  Where there is a scene, a run of the handler of app.js starts
    from lights and the wireframe of the new block and nothing else,
    whatever was in the scene; the wireframe is added whatever the sizes
    of the block, also when one is 0 or negative. *)
Theorem run_starts_from_lights_and_wireframe : forall g cs (bL bW bH : Z),
  children g = Some cs ->
  exists lights,
    children (startRun bL bW bH g) = Some (lights ++ [AWireframe 0 0 0 bL bW bH])
    /\ Forall (fun c => is_light c = true) lights
    /\ blockWireframe (startRun bL bW bH g) = Some (AWireframe 0 0 0 bL bW bH)
    /\ meshes (startRun bL bW bH g) = []
    /\ labels (startRun bL bW bH g) = [].
Proof.
  intros g cs bL bW bH Hcs. unfold startRun.
  rewrite (clearScene_children g cs Hcs). cbn.
  eexists. split; [reflexivity |]. repeat split.
  destruct (decide (List.filter is_light cs = [])).
  - repeat constructor.
  - apply filter_light_lights.
Qed.

Lemma run_starts_witness :
  children used_stage
  = Some [ALight (DirectionalLight 1 (1000, 2000, 1000));
          AWireframe 0 0 0 200 100 60;
          ALight (AmbientLight 0.5);
          AnObject (Mesh (mkBox 0 0 0 100 50 30 (Color.mkHSL 0 80 55) 1 None false))]
  /\ blockWireframe (startRun 300 0 60 used_stage)
     = Some (AWireframe 0 0 0 300 0 60).
Proof.
  split; [reflexivity |].
  destruct (run_starts_from_lights_and_wireframe used_stage _ 300 0 60 eq_refl)
    as (lights & _ & _ & Hwf & _).
  exact Hwf.
Defined.

End Clearing.

(** ** Sub-blocks *)

Section SubBlockFacts.
Import Scene Draw SubBlocks Spec Further Cases.

Variable grey : Color.HSL.

Implicit Types (w : World) (n : pnode).

Lemma pnode_induction (P : pnode -> Prop) :
  (forall n, (forall cs, children n = Some cs -> Forall P cs) -> P n) ->
  forall n, P n.
Proof.
  intros Hstep. fix IH 1. intros n. apply Hstep.
  destruct n as [ty dm og ch]. cbn. intros cs Hcs.
  destruct ch as [cs0 |]; [| discriminate]. injection Hcs as <-.
  induction cs0 as [| c cs0 IHcs]; constructor; [apply IH | exact IHcs].
Qed.

(** [renderNode] handles the nodes below a node one by one, in the
    order of [visited]. *)
Lemma renderNode_visits : forall n w,
  renderNode grey n w = fold_left (renderOne grey) (visited n) w.
Proof.
  induction n as [n IH] using pnode_induction. intros w.
  destruct n as [ty dm og ch]. cbn [renderNode visited children] in *.
  cbn [fold_left].
  generalize (renderOne grey w (PNode ty dm og ch)). clear w. intros w.
  destruct ch as [cs |]; [| reflexivity].
  specialize (IH cs eq_refl). revert w.
  induction IH as [| c cs Hc _ IHcs]; intros w; cbn; [reflexivity |].
  rewrite fold_left_app, <- Hc. apply IHcs.
Qed.

Lemma renderOne_spec w n :
  initialised w ->
  initialised (renderOne grey w n)
  /\ List.map geometry (placed (renderOne grey w n))
     = List.map geometry (placed w)
       ++ (if shown_sub_block n then [(origin n, dimensions n)] else [])
  /\ itemLabels (renderOne grey w n)
     = itemLabels w ++ (if shown_sub_block n then [dimensions n] else [])
  /\ itemColorMap (renderOne grey w n) = itemColorMap w
  /\ itemIndexMap (renderOne grey w n) = itemIndexMap w
  /\ (Forall (fun b => box_isSubBlock b = true) (placed w) ->
      Forall (fun b => box_isSubBlock b = true) (placed (renderOne grey w n))).
Proof.
  intros Hw. unfold renderOne, shown_sub_block.
  destruct (Js.str_is (type n) "sub-block"); cbn [andb];
    [| rewrite !app_nil_r; repeat split; auto].
  destruct (dimensions n) as [[L W] H], (origin n) as [[x y] z].
  unfold addBox, initialised in *.
  destruct (scene w) as [objs |] eqn:Hs; [| contradiction].
  destruct ((L <=? 0) || (W <=? 0) || (H <=? 0)); cbn [fst negb].
  - rewrite Hs, !app_nil_r. repeat split; auto.
  - cbn. unfold placed. cbn. rewrite placements_app, List.map_app. cbn.
    repeat split; try discriminate.
    intros Hall. apply Forall_app. split; [exact Hall |]. now constructor.
Qed.

Lemma renderOne_fold (nodes : list pnode) : forall w,
  initialised w ->
  let w' := fold_left (renderOne grey) nodes w in
  initialised w'
  /\ List.map geometry (placed w')
     = List.map geometry (placed w)
       ++ List.map (fun n => (origin n, dimensions n))
            (List.filter shown_sub_block nodes)
  /\ itemLabels w'
     = itemLabels w ++ List.map dimensions (List.filter shown_sub_block nodes)
  /\ itemColorMap w' = itemColorMap w
  /\ itemIndexMap w' = itemIndexMap w.
Proof.
  induction nodes as [| n nodes IH]; intros w Hw; cbn.
  - rewrite !app_nil_r. auto.
  - destruct (renderOne_spec w n Hw) as (Hw1 & Hg & Hl & Hc & Hi & _).
    destruct (IH _ Hw1) as (Hw2 & Hg2 & Hl2 & Hc2 & Hi2).
    cbv zeta in *. rewrite Hg2, Hl2, Hc2, Hi2, Hg, Hl, Hc, Hi.
    rewrite <- !app_assoc.
    destruct (shown_sub_block n); cbn; auto.
Qed.

(** X23.  With a scene, [visualizeSubBlocks] shows the sub-blocks below
    the first node of [cuttingTree.nodes] that have three positive
    sides, each once, where and as large as the node says and in the
    order of the tree, with a label of its size; nodes of other types,
    sub-blocks with a side that is not positive and further roots are
    not shown, and the colour dictionaries are not touched. *)
Theorem sub_blocks_shown_as_given : forall nodes w,
  initialised w ->
  let w' := visualizeSubBlocks grey nodes w in
  List.map geometry (placed w')
  = List.map geometry (placed w)
    ++ List.map (fun n => (origin n, dimensions n))
         (List.filter shown_sub_block (looked_at nodes))
  /\ itemLabels w'
     = itemLabels w
       ++ List.map dimensions (List.filter shown_sub_block (looked_at nodes))
  /\ itemColorMap w' = itemColorMap w
  /\ itemIndexMap w' = itemIndexMap w.
Proof.
  intros nodes w Hw w'. subst w'. unfold visualizeSubBlocks, looked_at.
  destruct nodes as [[| root rest] |]; cbn [List.filter List.map];
    rewrite ?app_nil_r; auto.
  rewrite renderNode_visits.
  destruct (renderOne_fold (visited root) w Hw) as (_ & Hg & Hl & Hc & Hi).
  auto.
Qed.

End SubBlockFacts.

Section SubBlockWitness.
Import Scene Draw SubBlocks Spec Further Cases.

Lemma sub_blocks_shown_witness :
  initialised cleared
  /\ itemLabels (visualizeSubBlocks (Color.mkHSL 0 0 67) (Some sub_block_nodes) cleared)
     = [(100, 100, 60)].
Proof.
  assert (initialised cleared) as Hw by discriminate.
  split; [exact Hw |].
  exact (proj1 (proj2 (sub_blocks_shown_as_given (Color.mkHSL 0 0 67)
                         (Some sub_block_nodes) cleared Hw))).
Defined.

End SubBlockWitness.

(** ** Counts of a legacy tree *)

Section LegacyCounts.
Import Tree Stats Spec Further Samples.

(** X24.  For a tree in the legacy schema the statistics hold, under
    each key, twice the number of leaves with a truthy id of that key,
    with the volume and [totalFilled] counted once: a legacy leaf passes
    both leaf tests of [countItems], the first with the volume 0. *)
Theorem legacy_leaves_are_counted_twice : forall t cat dims k,
  let s := calculateStatisticsNew (Some (legacy t)) cat dims in
  count_at k (items s) = 2 * Z.of_nat (List.length (counted_at k t))
  /\ volume_at k (items s) = sum_leaf_volumes (counted_at k t)
  /\ totalFilled s = sum_leaf_volumes (counted t).
Proof.
  intros t cat [[bL bW] bH] k s. subst s. cbn -[countItems].
  destruct (countItems_legacy t (mkAcc ∅ 0) k) as (-> & -> & ->).
  unfold count_at, volume_at. cbn. rewrite lookup_empty. auto.
Qed.

End LegacyCounts.
